(** * Cardsphere package tracker: snapshot extraction, key derivation,
      diffing and the run controller of [content.js]

    The repository keeps four revisions of one content script.  The
    development follows the most recent one (the revision that has the
    counters, [displayOldPriceInfo] and [beginInitialization]); the module
    [Legacy] embeds the parts of the earliest revision that differ and are
    compared with it at the end.

    JavaScript strings are modelled as [string]; a [Map] keyed by strings is
    a [gmap string _], since the script only uses [set], [has] and [get]. *)

From Stdlib Require Import Ascii.
From stdpp Require Import gmap strings list fin_maps sorting.

(** ** Strings *)

(** [a || d] on a possibly missing string: [undefined], [null] and the empty
    string are falsy. *)
Definition orElse (a : option string) (d : string) : string :=
  match a with
  | Some (String c r) => String c r
  | _ => d
  end.

(** [Array.prototype.join]. *)
Fixpoint join (sep : string) (l : list string) : string :=
  match l with
  | [] => EmptyString
  | [x] => x
  | x :: l' => x +:+ sep +:+ join sep l'
  end.

(** [\d] without the unicode flag: the ten ASCII digits. *)
Definition isDigit (a : ascii) : bool :=
  let n := nat_of_ascii a in (48 <=? n) && (n <=? 57).

(** The longest run of digits at the start of [s], and what follows it. *)
Fixpoint spanDigits (s : string) : string * string :=
  match s with
  | EmptyString => (EmptyString, EmptyString)
  | String a s' =>
      if isDigit a
      then let '(d, r) := spanDigits s' in (String a d, r)
      else (EmptyString, s)
  end.

(** [s.match(/(\d+)c/)?.[1]] for a character [c] that is not a digit: the
    start positions are tried from the left; at a position the greedy [\d+]
    takes the whole run of digits, and giving digits back cannot help because
    the character after a shorter run is a digit, not [c]. *)
Fixpoint matchDigitsThen (c : ascii) (s : string) : option string :=
  match s with
  | EmptyString => None
  | String _ s' =>
      match spanDigits s with
      | (String d ds, String c' _) =>
          if decide (c' = c) then Some (String d ds) else matchDigitsThen c s'
      | _ => matchDigitsThen c s'
      end
  end.

(** ** The markup a package is read from

    Only what [parsePackage] looks at: for every [querySelector] the text of
    the first matching descendant, [None] when there is none. *)

Record LiElement := {
  li_a : option string;          (* li.querySelector('a')?.textContent *)
  li_condition : option string;  (* li.querySelector('.condition')?.textContent *)
  li_strong : option string;     (* li.querySelector('strong')?.textContent *)
  li_textContent : string;       (* li.textContent *)
  li_more : bool                 (* li.classList.contains('more') *)
}.

Record HeadingElement := {
  h_a : option string;           (* heading.querySelector('a')?.textContent *)
  h_strong : option string;      (* heading.querySelector('strong')?.textContent *)
  h_efficiency : option string   (* heading.querySelector('.efficiency-index')?.textContent *)
}.

Record PackageElement := {
  pe_heading : option HeadingElement;  (* pkg.querySelector('.package-heading') *)
  pe_items : list LiElement            (* pkg.querySelectorAll('.package-body li') *)
}.

Global Instance LiElement_eq_dec : EqDecision LiElement.
Proof. solve_decision. Defined.

Global Instance HeadingElement_eq_dec : EqDecision HeadingElement.
Proof. solve_decision. Defined.

Global Instance PackageElement_eq_dec : EqDecision PackageElement.
Proof. solve_decision. Defined.

(** ** Snapshots

    The objects [parsePackage] builds.  [element] is the reference to the
    markup node; it is deleted before the object is stored, so it is
    optional. *)

Record Card := {
  name : string;
  condition : string;
  price : string;
  quantity : string;
  element : option LiElement
}.

Record Package := {
  username : string;
  total : string;
  efficiencyText : string;
  efficiencyPercentage : string;
  cards : list Card;
  pkg_element : option PackageElement
}.

Global Instance Card_eq_dec : EqDecision Card.
Proof. solve_decision. Defined.

Global Instance Package_eq_dec : EqDecision Package.
Proof. solve_decision. Defined.

Inductive JsError := TypeError.

Inductive JsResult (A : Type) :=
  | Ok (a : A)
  | Throw (e : JsError).

Arguments Ok {A} a.
Arguments Throw {A} e.

(** ** [Array.prototype.sort]

    The sort is stable (ECMAScript 2019), and for a consistent comparator a
    stable sort has one possible result; insertion from the right computes
    it.  The comparator's sign is a [comparison]: [Lt] negative, [Eq] zero,
    [Gt] positive. *)

Section Sort.
Context {A : Type} (cmp : A → A → comparison).

Fixpoint insertSorted (x : A) (l : list A) : list A :=
  match l with
  | [] => [x]
  | y :: l' =>
      match cmp x y with
      | Gt => y :: insertSorted x l'
      | _ => x :: l
      end
  end.

Definition sort (l : list A) : list A := foldr insertSorted [] l.
End Sort.

(** ** [parsePackage] *)

Section Extract.
(** [String.prototype.localeCompare] of the host: a collation that the
    script does not choose. *)
Variable localeCompare : string → string → comparison.

Definition parseCard (li : LiElement) : Card :=
  {| name := orElse (li_a li) EmptyString;
     condition := orElse (li_condition li) EmptyString;
     price := orElse (li_strong li) EmptyString;
     quantity := orElse (matchDigitsThen "x" (li_textContent li)) "1";
     element := Some li |}.

Definition parsePackage (pkg : PackageElement) : JsResult Package :=
  match pe_heading pkg with
  | None => Throw TypeError   (* heading is null; heading.querySelector throws *)
  | Some heading =>
      let efficiencyText := orElse (h_efficiency heading) EmptyString in
      let percentageMatch := matchDigitsThen "%" efficiencyText in
      Ok {| username := orElse (h_a heading) EmptyString;
            total := orElse (h_strong heading) EmptyString;
            efficiencyText := efficiencyText;
            efficiencyPercentage :=
              match percentageMatch with Some m => m | None => EmptyString end;
            cards :=
              sort (λ a b, localeCompare (name a) (name b))
                (parseCard <$> filter (λ li, li_more li = false) (pe_items pkg));
            pkg_element := Some pkg |}
  end.
End Extract.

(** ** Key derivation *)

Definition cardKey (card : Card) : string :=
  quantity card +:+ "x " +:+ name card +:+ " " +:+ condition card.

Definition getBasePackageKey (pkgObj : Package) : string :=
  let cardSignatures := join "|" (cardKey <$> cards pkgObj) in
  username pkgObj +:+ "-" +:+ cardSignatures.

Definition getPackageKeyWithPercentage (pkgObj : Package) : string :=
  getBasePackageKey pkgObj +:+ "-" +:+ efficiencyPercentage pkgObj.

Definition getFullPackageKey (pkgObj : Package) : string :=
  let cardSignatures :=
    join "|" ((λ card, quantity card +:+ "x " +:+ name card +:+ " "
                        +:+ condition card +:+ " " +:+ price card)
              <$> cards pkgObj) in
  username pkgObj +:+ "-" +:+ total pkgObj +:+ "-"
    +:+ efficiencyPercentage pkgObj +:+ "-" +:+ cardSignatures.

(** ** The diff loop of [initializeState] *)

(** The entries of [prevBasePackageMap]. *)
Record PrevData := {
  percentageKey : string;
  fullKey : string;
  pkg : Package
}.

(** What the loop does to the page, in the order it does it. *)
Inductive DomEffect :=
  | ClassListAdd (pkgElement : PackageElement) (cls : string)
  | DisplayOldPackageTotal (packageElement : PackageElement)
      (oldTotal oldEfficiencyText : string)
  | DisplayOldPriceInfo (cardElement : option LiElement)
      (oldPrice oldEfficiencyText : string).

Record Counters := {
  newCount : nat;
  offerChangedCount : nat;
  priceChangedCount : nat
}.

Definition zeroCounters : Counters :=
  {| newCount := 0; offerChangedCount := 0; priceChangedCount := 0 |}.

(** [prevPackages.forEach(pkg => prevBasePackageMap.set(baseKey, {...}))]:
    a later package with the same base key replaces the earlier one. *)
Definition prevBasePackageMap (prevPackages : list Package) : gmap string PrevData :=
  foldl (λ m pkg,
           <[getBasePackageKey pkg :=
               {| percentageKey := getPackageKeyWithPercentage pkg;
                  fullKey := getFullPackageKey pkg;
                  pkg := pkg |}]> m)
        ∅ prevPackages.

(** The second map the loop fills; nothing reads it. *)
Definition prevPackageWithPercentageMap (prevPackages : list Package)
  : gmap string (string * Package) :=
  foldl (λ m pkg, <[getPackageKeyWithPercentage pkg := (getFullPackageKey pkg, pkg)]> m)
        ∅ prevPackages.

Definition prevCardMap (prevCards : list Card) : gmap string Card :=
  foldl (λ m card, <[cardKey card := card]> m) ∅ prevCards.

(** The previous price shown at a current card, if one is shown. *)
Definition oldPriceOf (m : gmap string Card) (card : Card) : option string :=
  match m !! cardKey card with
  | Some prevCard =>
      if decide (price prevCard ≠ price card) then Some (price prevCard) else None
  | None => None
  end.

(** [currPkg.cards.forEach(card => ...)] in the price-changed branch. *)
Definition oldPriceEffects (m : gmap string Card) (currCards : list Card)
  : list DomEffect :=
  omap (λ card, (λ oldPrice, DisplayOldPriceInfo (element card) oldPrice EmptyString)
                  <$> oldPriceOf m card)
       currCards.

(** The body of [currentPackages.forEach((currPkg, index) => ...)], with
    [pkgElement = packages[index]]. *)
Definition analyzePackage (prevMap : gmap string PrevData) (ctr : Counters)
    (pkgElement : PackageElement) (currPkg : Package) : Counters * list DomEffect :=
  let baseKey := getBasePackageKey currPkg in
  let percentageKey' := getPackageKeyWithPercentage currPkg in
  let fullKey' := getFullPackageKey currPkg in
  match prevMap !! baseKey with
  | None =>
      ({| newCount := S (newCount ctr);
          offerChangedCount := offerChangedCount ctr;
          priceChangedCount := priceChangedCount ctr |},
       [ClassListAdd pkgElement "package-new"])
  | Some prevData =>
      if decide (percentageKey prevData ≠ percentageKey') then
        ({| newCount := newCount ctr;
            offerChangedCount := S (offerChangedCount ctr);
            priceChangedCount := priceChangedCount ctr |},
         [ClassListAdd pkgElement "package-offer-changed";
          DisplayOldPackageTotal pkgElement (total (pkg prevData))
            (efficiencyText (pkg prevData))])
      else if decide (fullKey prevData ≠ fullKey') then
        ({| newCount := newCount ctr;
            offerChangedCount := offerChangedCount ctr;
            priceChangedCount := S (priceChangedCount ctr) |},
         ClassListAdd pkgElement "package-price-changed"
         :: DisplayOldPackageTotal pkgElement (total (pkg prevData))
              (efficiencyText (pkg prevData))
         :: oldPriceEffects (prevCardMap (cards (pkg prevData))) (cards currPkg))
      else (ctr, [])
  end.

(** The whole loop: the counters start from zero and the effects accumulate
    in page order. *)
Definition analyzePackages (prevPackages : list Package)
    (packages : list PackageElement) (currentPackages : list Package)
  : Counters * list DomEffect :=
  let prevMap := prevBasePackageMap prevPackages in
  foldl (λ acc '(pkgElement, currPkg),
           let '(ctr, effs) := analyzePackage prevMap acc.1 pkgElement currPkg in
           (ctr, acc.2 ++ effs))
        (zeroCounters, []) (zip packages currentPackages).

(** [packagesToStore]: copies without the references to the markup. *)
Definition stripCard (card : Card) : Card :=
  {| name := name card; condition := condition card; price := price card;
     quantity := quantity card; element := None |}.

Definition stripPackage (p : Package) : Package :=
  {| username := username p; total := total p;
     efficiencyText := efficiencyText p;
     efficiencyPercentage := efficiencyPercentage p;
     cards := stripCard <$> cards p; pkg_element := None |}.

Definition packagesToStore (currentPackages : list Package) : list Package :=
  stripPackage <$> currentPackages.

(** [packages.map(pkg => parsePackage(pkg))]: the first exception ends it. *)
Fixpoint mapJs {A B} (f : A → JsResult B) (l : list A) : JsResult (list B) :=
  match l with
  | [] => Ok []
  | x :: l' =>
      match f x with
      | Throw e => Throw e
      | Ok y => match mapJs f l' with
                | Throw e => Throw e
                | Ok ys => Ok (y :: ys)
                end
      end
  end.

(** [result.packageData || []]: an absent entry reads as no packages. *)
Definition prevPackagesOf (packageData : option (list Package)) : list Package :=
  match packageData with
  | Some l => l
  | None => []
  end.

(** ** The run controller

    The script runs on one event loop.  An [async] function runs until its
    next [await]; what is left of it is a suspended task that continues when
    the awaited promise settles.  The state holds the script's globals, the
    stored [packageData], the annotations made on the page and the suspended
    activations of [beginInitialization]. *)

Inductive Task :=
  | AwaitGet (packages : list PackageElement) (currentPackages : list Package)
      (* inside initializeState, at [await browser.storage.local.get] *)
  | AwaitSet (toStore : list Package)
      (* inside initializeState, at [await browser.storage.local.set] *)
  | AwaitReturn
      (* initializeState has returned; at [await initializeState()] *).

Record State := {
  isInitialized : bool;
  isInitializing : bool;
  counters : Counters;
  packageData : option (list Package);
  annotations : list DomEffect;
  tasks : list Task;
  uncaught : nat   (* rejections that reached the host unhandled *)
}.

Inductive Event :=
  | Trigger (packages : list PackageElement)
      (* beginInitialization is called, at script start or by the observer,
         while the document holds these packages *)
  | Settle (i : nat) (fulfilled : bool)
      (* the promise that task [i] awaits is fulfilled or rejected *)
  | ResetClick
      (* the reset button, up to its [await browser.storage.local.clear()] *)
  | ClearSettled
      (* the rest of the reset handler: the store is empty, the page reloads *)
  | Reload.
      (* the page is loaded again and the script starts afresh *)

Definition startState (stored : option (list Package)) : State :=
  {| isInitialized := false; isInitializing := false;
     counters := zeroCounters; packageData := stored;
     annotations := []; tasks := []; uncaught := 0 |}.

Section Controller.
Variable localeCompare : string → string → comparison.

(** [initializeState] from its call to its first [await] (or to its
    return or exception), inside [beginInitialization] after the guard has
    been set. *)
Definition beginCycle (st : State) (packages : list PackageElement) : State :=
  let st1 :=
    {| isInitialized := isInitialized st; isInitializing := true;
       counters := counters st; packageData := packageData st;
       annotations := annotations st; tasks := tasks st;
       uncaught := uncaught st |} in
  if isInitialized st1 then
    {| isInitialized := isInitialized st1; isInitializing := isInitializing st1;
       counters := counters st1; packageData := packageData st1;
       annotations := annotations st1; tasks := tasks st1 ++ [AwaitReturn];
       uncaught := uncaught st1 |}
  else
    match packages with
    | [] =>
        {| isInitialized := isInitialized st1; isInitializing := isInitializing st1;
           counters := counters st1; packageData := packageData st1;
           annotations := annotations st1; tasks := tasks st1 ++ [AwaitReturn];
           uncaught := uncaught st1 |}
    | _ :: _ =>
        match mapJs (parsePackage localeCompare) packages with
        | Throw _ =>
            (* the promise is rejected and nothing handles it *)
            {| isInitialized := isInitialized st1; isInitializing := isInitializing st1;
               counters := zeroCounters; packageData := packageData st1;
               annotations := annotations st1; tasks := tasks st1;
               uncaught := S (uncaught st1) |}
        | Ok currentPackages =>
            {| isInitialized := isInitialized st1; isInitializing := isInitializing st1;
               counters := zeroCounters; packageData := packageData st1;
               annotations := annotations st1;
               tasks := tasks st1 ++ [AwaitGet packages currentPackages];
               uncaught := uncaught st1 |}
        end
    end.

(** [beginInitialization]; the observer's callback makes the same test
    before it calls it. *)
Definition beginInitialization (st : State) (packages : list PackageElement) : State :=
  if isInitialized st || isInitializing st then st
  else beginCycle st packages.

(** A suspended task continues. *)
Definition resume (st : State) (i : nat) (t : Task) (fulfilled : bool) : State :=
  match t, fulfilled with
  | AwaitGet packages currentPackages, true =>
      let '(ctr, effs) :=
        analyzePackages (prevPackagesOf (packageData st)) packages currentPackages in
      {| isInitialized := isInitialized st; isInitializing := isInitializing st;
         counters := ctr; packageData := packageData st;
         annotations := annotations st ++ effs;
         tasks := <[i := AwaitSet (packagesToStore currentPackages)]> (tasks st);
         uncaught := uncaught st |}
  | AwaitSet toStore, true =>
      {| isInitialized := true; isInitializing := isInitializing st;
         counters := counters st; packageData := Some toStore;
         annotations := annotations st;
         tasks := <[i := AwaitReturn]> (tasks st);
         uncaught := uncaught st |}
  | AwaitReturn, _ =>
      {| isInitialized := isInitialized st; isInitializing := false;
         counters := counters st; packageData := packageData st;
         annotations := annotations st;
         tasks := delete i (tasks st);
         uncaught := uncaught st |}
  | _, false =>
      (* the rejection leaves initializeState and then beginInitialization;
         neither has a handler, so [isInitializing = false] is never run *)
      {| isInitialized := isInitialized st; isInitializing := isInitializing st;
         counters := counters st; packageData := packageData st;
         annotations := annotations st;
         tasks := delete i (tasks st);
         uncaught := S (uncaught st) |}
  end.

Definition step (st : State) (ev : Event) : State :=
  match ev with
  | Trigger packages => beginInitialization st packages
  | Settle i fulfilled =>
      match tasks st !! i with
      | Some t => resume st i t fulfilled
      | None => st
      end
  | ResetClick =>
      {| isInitialized := false; isInitializing := isInitializing st;
         counters := zeroCounters; packageData := packageData st;
         annotations := annotations st; tasks := tasks st;
         uncaught := uncaught st |}
  | ClearSettled => startState None
  | Reload => startState (packageData st)
  end.

Definition run (st : State) (evs : list Event) : State := foldl step st evs.
End Controller.

(** What every reachable state satisfies: at most one activation is
    suspended, and while one is, [isInitializing] is set. *)
Definition guarded (st : State) : Prop :=
  length (tasks st) ≤ 1 ∧ (tasks st ≠ [] → isInitializing st = true).

(** ** The earliest revision

    The first revision of the script has no percentage: its snapshot keeps
    the efficiency text only and its key without price contains that text;
    the second revision replaced both.  Its only guard is [isInitialized],
    set after the save; this stayed until the last revision added
    [isInitializing]. *)

Module Legacy.
Record Package := {
  username : string;
  total : string;
  efficiency : string;
  cards : list Card
}.

Definition getPackageKeyWithoutPrice (pkgObj : Package) : string :=
  let cardSignatures := join "|" (cardKey <$> cards pkgObj) in
  username pkgObj +:+ "-" +:+ efficiency pkgObj +:+ "-" +:+ cardSignatures.

Inductive Task :=
  | AwaitGet (currentPackages : list Package)
  | AwaitSet (toStore : list Package).

Record State := {
  isInitialized : bool;
  packageData : option (list Package);
  tasks : list Task
}.

(** [initializeState] up to its first [await], for packages already
    parsed; the timer and the observer both call it when
    [isInitialized] is false. *)
Definition initializeState (st : State) (currentPackages : list Package) : State :=
  if isInitialized st then st
  else match currentPackages with
       | [] => st
       | _ :: _ =>
           {| isInitialized := isInitialized st;
              packageData := packageData st;
              tasks := tasks st ++ [AwaitGet currentPackages] |}
       end.

Definition settle (st : State) (i : nat) (fulfilled : bool) : State :=
  match tasks st !! i, fulfilled with
  | Some (AwaitGet currentPackages), true =>
      {| isInitialized := isInitialized st;
         packageData := packageData st;
         tasks := <[i := AwaitSet currentPackages]> (tasks st) |}
  | Some (AwaitSet toStore), true =>
      {| isInitialized := true;
         packageData := Some toStore;
         tasks := delete i (tasks st) |}
  | Some _, false =>
      {| isInitialized := isInitialized st;
         packageData := packageData st;
         tasks := delete i (tasks st) |}
  | None, _ => st
  end.
End Legacy.

(** The loop of [analyzePackages] from any counters and effects. *)
Definition analyzeFold (prevMap : gmap string PrevData)
    (acc : Counters * list DomEffect) (l : list (PackageElement * Package))
  : Counters * list DomEffect :=
  foldl (λ acc '(pkgElement, currPkg),
           let '(ctr, effs) := analyzePackage prevMap acc.1 pkgElement currPkg in
           (ctr, acc.2 ++ effs))
        acc l.

(** ** Delimiters

    The keys are concatenations, so they tell two snapshots apart only as far
    as the texts stay clear of the separators.  [hasChar c s] says that the
    character [c] occurs in [s]. *)

Fixpoint hasChar (c : ascii) (s : string) : bool :=
  match s with
  | EmptyString => false
  | String a s' => if decide (a = c) then true else hasChar c s'
  end.

(** The parts of a card that enter the base key. *)
Definition baseComponents (card : Card) : string * string * string :=
  (quantity card, name card, condition card).

(** Seller name without [-]; quantities without [x]; quantities, names and
    conditions without [|]; conditions without a space. *)
Definition cardDelimiterFree (card : Card) : Prop :=
  hasChar "x" (quantity card) = false ∧
  hasChar "|" (quantity card) = false ∧
  hasChar "|" (name card) = false ∧
  hasChar "|" (condition card) = false ∧
  hasChar " " (condition card) = false.

Definition delimiterFree (p : Package) : Prop :=
  hasChar "-" (username p) = false ∧ Forall cardDelimiterFree (cards p).

(** ** Sample data

    The listing of the specification's examples: seller [alice] with one
    card [1x Foo NM] priced [$10], at 70% of [$100]. *)

Definition sampleLi : LiElement :=
  {| li_a := Some "Foo"; li_condition := Some "NM"; li_strong := Some "$10";
     li_textContent := "1x Foo NM $10"; li_more := false |}.

Definition sampleElement : PackageElement :=
  {| pe_heading := Some {| h_a := Some "alice"; h_strong := Some "$10";
                           h_efficiency := Some "70% of $100" |};
     pe_items := [sampleLi] |}.

Definition samplePrev : Package :=
  {| username := "alice"; total := "$10"; efficiencyText := "70% of $100";
     efficiencyPercentage := "70";
     cards := [{| name := "Foo"; condition := "NM"; price := "$10";
                  quantity := "1"; element := None |}];
     pkg_element := None |}.

(** The same listing re-evaluated at 85%, with a new price. *)
Definition sampleOffer : Package :=
  {| username := "alice"; total := "$12"; efficiencyText := "85% of $100";
     efficiencyPercentage := "85";
     cards := [{| name := "Foo"; condition := "NM"; price := "$12";
                  quantity := "1"; element := None |}];
     pkg_element := None |}.

(** The same listing at the same percentage, with a new price. *)
Definition samplePrice : Package :=
  {| username := "alice"; total := "$12"; efficiencyText := "70% of $120";
     efficiencyPercentage := "70";
     cards := [{| name := "Foo"; condition := "NM"; price := "$12";
                  quantity := "1"; element := None |}];
     pkg_element := None |}.

(** The same card offered by another seller. *)
Definition sampleCarol : Package :=
  {| username := "carol"; total := "$10"; efficiencyText := "70% of $100";
     efficiencyPercentage := "70";
     cards := [{| name := "Foo"; condition := "NM"; price := "$10";
                  quantity := "1"; element := None |}];
     pkg_element := None |}.

(** A listing without a heading region. *)
Definition noHeading : PackageElement :=
  {| pe_heading := None; pe_items := [sampleLi] |}.

(** One seller offering the same card twice, near mint and lightly played,
    and the same listing with the two items in the other order. *)
Definition liFooNM : LiElement :=
  {| li_a := Some "Foo"; li_condition := Some "NM"; li_strong := Some "$10";
     li_textContent := "1x Foo NM $10"; li_more := false |}.

Definition liFooLP : LiElement :=
  {| li_a := Some "Foo"; li_condition := Some "LP"; li_strong := Some "$8";
     li_textContent := "1x Foo LP $8"; li_more := false |}.

Definition bobHeading : HeadingElement :=
  {| h_a := Some "bob"; h_strong := Some "$18"; h_efficiency := Some "80% of $22" |}.

Definition sameNameA : PackageElement :=
  {| pe_heading := Some bobHeading; pe_items := [liFooNM; liFooLP] |}.

Definition sameNameB : PackageElement :=
  {| pe_heading := Some bobHeading; pe_items := [liFooLP; liFooNM] |}.

Definition barLi : LiElement :=
  {| li_a := Some "Bar"; li_condition := Some "LP"; li_strong := Some "$8";
     li_textContent := "1x Bar LP $8"; li_more := false |}.

(** Comparison by character codes, a collation to compute examples with. *)
Definition codeCompare : string → string → comparison := String.compare.

(** Two snapshots whose base keys coincide although a card's name and
    condition differ. *)
Definition collideA : Package :=
  {| username := "alice"; total := "$10"; efficiencyText := "70% of $100";
     efficiencyPercentage := "70";
     cards := [{| name := "Foo"; condition := "Bar NM"; price := "$10";
                  quantity := "1"; element := None |}];
     pkg_element := None |}.

Definition collideB : Package :=
  {| username := "alice"; total := "$10"; efficiencyText := "70% of $100";
     efficiencyPercentage := "70";
     cards := [{| name := "Foo Bar"; condition := "NM"; price := "$10";
                  quantity := "1"; element := None |}];
     pkg_element := None |}.

(** Two snapshots of one listing whose total and price texts differ while
    their full keys coincide. *)
Definition priceCollideP : Package :=
  {| username := "alice"; total := "$10"; efficiencyText := "70% of $100";
     efficiencyPercentage := "70";
     cards := [{| name := "Foo"; condition := "NM";
                  price := "$9-70-1x Foo NM $9";
                  quantity := "1"; element := None |}];
     pkg_element := None |}.

Definition priceCollideC : Package :=
  {| username := "alice"; total := "$10-70-1x Foo NM $9";
     efficiencyText := "70% of $100"; efficiencyPercentage := "70";
     cards := [{| name := "Foo"; condition := "NM"; price := "$9";
                  quantity := "1"; element := None |}];
     pkg_element := None |}.

(** Two listings of one seller with the same card at different
    percentages: one base key for both. *)
Definition sameBaseKey : list Package := [samplePrev; sampleOffer].

(** ** Further definitions for the properties of the code *)

(** Every character of [s] is matched by [\d]. *)
Fixpoint allDigits (s : string) : bool :=
  match s with
  | EmptyString => true
  | String a s' => isDigit a && allDigits s'
  end.

(** The parts of a card that enter the full key. *)
Definition fullComponents (card : Card) : string * string * string * string :=
  (quantity card, name card, condition card, price card).

(** As [cardDelimiterFree], and the price without [|] and without a space. *)
Definition cardPriceDelimiterFree (card : Card) : Prop :=
  cardDelimiterFree card ∧
  hasChar "|" (price card) = false ∧
  hasChar " " (price card) = false.

(** Seller name, total and percentage without [-], and the cards as above. *)
Definition fullDelimiterFree (p : Package) : Prop :=
  hasChar "-" (username p) = false ∧
  hasChar "-" (total p) = false ∧
  hasChar "-" (efficiencyPercentage p) = false ∧
  Forall cardPriceDelimiterFree (cards p).

(** The card signature inside the full key. *)
Definition fullCardKey (card : Card) : string :=
  quantity card +:+ "x " +:+ name card +:+ " " +:+ condition card
    +:+ " " +:+ price card.

(** The number of packages that were given the class [cls]. *)
Definition isClassAdd (cls : string) (e : DomEffect) : bool :=
  match e with
  | ClassListAdd _ c => bool_decide (c = cls)
  | _ => false
  end.

Definition countClass (cls : string) (effs : list DomEffect) : nat :=
  length (filter (λ e, isClassAdd cls e = true) effs).

(** The entry that [prevBasePackageMap] holds for a package. *)
Definition prevDataOf (p : Package) : PrevData :=
  {| percentageKey := getPackageKeyWithPercentage p;
     fullKey := getFullPackageKey p; pkg := p |}.

(** What an effect of the loop may be, given the store and the page. *)
Definition effectFrom (prev : list Package) (packages : list PackageElement)
    (cur : list Package) (e : DomEffect) : Prop :=
  match e with
  | ClassListAdd el cls =>
      el ∈ packages ∧
      cls ∈ ["package-new"; "package-offer-changed"; "package-price-changed"]
  | DisplayOldPackageTotal el t eff =>
      el ∈ packages ∧ ∃ p, p ∈ prev ∧ total p = t ∧ efficiencyText p = eff
  | DisplayOldPriceInfo ce old eff =>
      eff = EmptyString ∧
      (∃ c card, c ∈ cur ∧ card ∈ cards c ∧ element card = ce ∧ price card ≠ old) ∧
      (∃ p prevCard, p ∈ prev ∧ prevCard ∈ cards p ∧ price prevCard = old)
  end.

(** ** The phases of the controller

    The events of a page view between two loads of the page: calls of
    [beginInitialization] and settled promises. *)
Definition cycleEvent (ev : Event) : Prop :=
  match ev with
  | Trigger _ | Settle _ _ => True
  | ResetClick | ClearSettled | Reload => False
  end.

(** Where a page view can be, for the packages [stored] at its start.
    Before the load has settled nothing is annotated; afterwards the
    annotations and counters are those of one comparison of one parse of the
    page with [stored]. *)
Inductive phase (localeCompare : string → string → comparison)
    (stored : option (list Package)) (st : State) : Prop :=
  | phase_idle :
      isInitialized st = false → isInitializing st = false → tasks st = [] →
      annotations st = [] → packageData st = stored →
      phase localeCompare stored st
  | phase_returning :
      isInitialized st = false → isInitializing st = true →
      tasks st = [AwaitReturn] →
      annotations st = [] → packageData st = stored →
      phase localeCompare stored st
  | phase_loading packages currentPackages :
      mapJs (parsePackage localeCompare) packages = Ok currentPackages →
      isInitialized st = false → isInitializing st = true →
      tasks st = [AwaitGet packages currentPackages] →
      annotations st = [] → packageData st = stored →
      phase localeCompare stored st
  | phase_failed_early :
      isInitialized st = false → isInitializing st = true → tasks st = [] →
      annotations st = [] → packageData st = stored →
      phase localeCompare stored st
  | phase_saving packages currentPackages :
      mapJs (parsePackage localeCompare) packages = Ok currentPackages →
      isInitialized st = false → isInitializing st = true →
      tasks st = [AwaitSet (packagesToStore currentPackages)] →
      annotations st =
        (analyzePackages (prevPackagesOf stored) packages currentPackages).2 →
      counters st =
        (analyzePackages (prevPackagesOf stored) packages currentPackages).1 →
      packageData st = stored →
      phase localeCompare stored st
  | phase_failed_late packages currentPackages :
      mapJs (parsePackage localeCompare) packages = Ok currentPackages →
      isInitialized st = false → isInitializing st = true → tasks st = [] →
      annotations st =
        (analyzePackages (prevPackagesOf stored) packages currentPackages).2 →
      counters st =
        (analyzePackages (prevPackagesOf stored) packages currentPackages).1 →
      packageData st = stored →
      phase localeCompare stored st
  | phase_saved packages currentPackages :
      mapJs (parsePackage localeCompare) packages = Ok currentPackages →
      isInitialized st = true → isInitializing st = true →
      tasks st = [AwaitReturn] →
      annotations st =
        (analyzePackages (prevPackagesOf stored) packages currentPackages).2 →
      counters st =
        (analyzePackages (prevPackagesOf stored) packages currentPackages).1 →
      packageData st = Some (packagesToStore currentPackages) →
      phase localeCompare stored st
  | phase_done packages currentPackages :
      mapJs (parsePackage localeCompare) packages = Ok currentPackages →
      isInitialized st = true → isInitializing st = false → tasks st = [] →
      annotations st =
        (analyzePackages (prevPackagesOf stored) packages currentPackages).2 →
      counters st =
        (analyzePackages (prevPackagesOf stored) packages currentPackages).1 →
      packageData st = Some (packagesToStore currentPackages) →
      phase localeCompare stored st.

(** What the store can hold, and what a suspended cycle carries: the
    packages a save is about to write are stripped copies of a parsed page. *)
Definition storedFrom (localeCompare : string → string → comparison)
    (stored : option (list Package)) (data : option (list Package)) : Prop :=
  data = stored ∨ data = None ∨
  ∃ packages currentPackages,
    mapJs (parsePackage localeCompare) packages = Ok currentPackages ∧
    data = Some (packagesToStore currentPackages).

Definition taskFrom (localeCompare : string → string → comparison) (t : Task) : Prop :=
  match t with
  | AwaitGet packages currentPackages =>
      mapJs (parsePackage localeCompare) packages = Ok currentPackages
  | AwaitSet toStore =>
      ∃ packages currentPackages,
        mapJs (parsePackage localeCompare) packages = Ok currentPackages ∧
        toStore = packagesToStore currentPackages
  | AwaitReturn => True
  end.

(** ** The earliest revision: parsing, comparing and starting a cycle

    [src/content.js].  Its cards carry no reference to the markup, its full
    key holds the efficiency text, and its loop tests the full key first and
    the efficiency text second. *)

Module LegacyDiff.
Section Extract.
Variable localeCompare : string → string → comparison.

Definition parseCard (li : LiElement) : Card :=
  {| name := orElse (li_a li) EmptyString;
     condition := orElse (li_condition li) EmptyString;
     price := orElse (li_strong li) EmptyString;
     quantity := orElse (matchDigitsThen "x" (li_textContent li)) "1";
     element := None |}.

Definition parsePackage (pkg : PackageElement) : JsResult Legacy.Package :=
  match pe_heading pkg with
  | None => Throw TypeError
  | Some heading =>
      Ok {| Legacy.username := orElse (h_a heading) EmptyString;
            Legacy.total := orElse (h_strong heading) EmptyString;
            Legacy.efficiency := orElse (h_efficiency heading) EmptyString;
            Legacy.cards :=
              sort (λ a b, localeCompare (name a) (name b))
                (parseCard <$> filter (λ li, li_more li = false) (pe_items pkg)) |}
  end.

(** A call of [initializeState] by the timer or the observer, up to its
    first [await]; an exception of [parsePackage] ends it with nothing
    changed. *)
Definition trigger (st : Legacy.State) (packages : list PackageElement)
  : Legacy.State :=
  if Legacy.isInitialized st then st
  else match packages with
       | [] => st
       | _ :: _ =>
           match mapJs parsePackage packages with
           | Throw _ => st
           | Ok currentPackages =>
               {| Legacy.isInitialized := Legacy.isInitialized st;
                  Legacy.packageData := Legacy.packageData st;
                  Legacy.tasks := Legacy.tasks st ++ [Legacy.AwaitGet currentPackages] |}
           end
       end.
End Extract.

Definition getFullPackageKey (pkgObj : Legacy.Package) : string :=
  let cardSignatures :=
    join "|" ((λ card, quantity card +:+ "x " +:+ name card +:+ " "
                        +:+ condition card +:+ " " +:+ price card)
              <$> Legacy.cards pkgObj) in
  Legacy.username pkgObj +:+ "-" +:+ Legacy.total pkgObj +:+ "-"
    +:+ Legacy.efficiency pkgObj +:+ "-" +:+ cardSignatures.

Record PrevData := {
  fullKey : string;
  pkg : Legacy.Package
}.

Definition prevPackageMap (prevPackages : list Legacy.Package)
  : gmap string PrevData :=
  foldl (λ m p,
           <[Legacy.getPackageKeyWithoutPrice p :=
               {| fullKey := getFullPackageKey p; pkg := p |}]> m)
        ∅ prevPackages.

(** The body of the loop: the class added to the package, if any. *)
Definition analyzePackage (prevMap : gmap string PrevData)
    (currPkg : Legacy.Package) : option string :=
  match prevMap !! Legacy.getPackageKeyWithoutPrice currPkg with
  | None => Some "package-new"
  | Some prevData =>
      if decide (fullKey prevData ≠ getFullPackageKey currPkg) then
        if decide (Legacy.efficiency currPkg ≠ Legacy.efficiency (pkg prevData))
        then Some "package-offer-changed"
        else Some "package-price-changed"
      else None
  end.
End LegacyDiff.

(** ** The annotation of a card

    [displayOldPriceInfo] appends to the item a [div] that holds a [span]
    with the old price, a space and a [span] with the old efficiency text.
    The new nodes come last in the item and are no link, no [strong] and
    carry no class [condition], so the first matches of the three selectors
    stay what they were; the text of the item grows by the three texts. *)
Definition displayOldPriceInfo (cardElement : LiElement)
    (oldPrice oldEfficiencyText : string) : LiElement :=
  {| li_a := li_a cardElement;
     li_condition := li_condition cardElement;
     li_strong := li_strong cardElement;
     li_textContent :=
       li_textContent cardElement +:+ oldPrice +:+ " " +:+ oldEfficiencyText;
     li_more := li_more cardElement |}.

(** * Properties *)

(** ** Strings *)

Lemma append_nil (b : string) : EmptyString +:+ b = b.
Proof. reflexivity. Qed.

Lemma append_cons (x : ascii) (a b : string) : String x a +:+ b = String x (a +:+ b).
Proof. reflexivity. Qed.

Lemma append_assoc (a b c : string) : (a +:+ b) +:+ c = a +:+ (b +:+ c).
Proof. induction a as [|x a IH]; [done|]. rewrite !append_cons. by f_equal. Qed.

Lemma append_inv_head (a b c : string) : a +:+ b = a +:+ c → b = c.
Proof.
  induction a as [|x a IH]; [done|]. rewrite !append_cons. intros [= H]; auto.
Qed.

(** ** C8: what the base key depends on *)

(** C8.  The base key is a function of the seller name and of the card
    signatures [quantity ++ "x " ++ name ++ " " ++ condition] in the
    snapshot's card order: two snapshots that agree on these have the same
    base key.  In particular replacing the total text, the efficiency text,
    the efficiency percentage and every card's price text (and the
    references to the markup) leaves the base key as it was. *)
Theorem C8_base_key_ignores_price_and_offer :
  (∀ a b : Package,
      username a = username b →
      cardKey <$> cards a = cardKey <$> cards b →
      getBasePackageKey a = getBasePackageKey b) ∧
  (∀ (p : Package) (total' effText' effPct' : string) (reprice : Card → string)
     (el' : option PackageElement),
      getBasePackageKey
        {| username := username p; total := total';
           efficiencyText := effText'; efficiencyPercentage := effPct';
           cards := (λ c, {| name := name c; condition := condition c;
                             price := reprice c; quantity := quantity c;
                             element := element c |}) <$> cards p;
           pkg_element := el' |}
      = getBasePackageKey p).
Proof.
  split.
  - intros a b Hu Hc. unfold getBasePackageKey. by rewrite Hu, Hc.
  - intros p t e pc f el. unfold getBasePackageKey. simpl.
    by rewrite <- list_fmap_compose.
Qed.

Lemma C8_witness :
  getBasePackageKey
    {| username := "alice"; total := "$10"; efficiencyText := "70% of $100";
       efficiencyPercentage := "70";
       cards := [{| name := "Foo"; condition := "NM"; price := "$10";
                    quantity := "1"; element := None |}];
       pkg_element := None |}
  = getBasePackageKey
    {| username := "alice"; total := "$12"; efficiencyText := "85% of $100";
       efficiencyPercentage := "85";
       cards := [{| name := "Foo"; condition := "NM"; price := "$12";
                    quantity := "1"; element := None |}];
       pkg_element := None |}.
Proof. apply (proj1 C8_base_key_ignores_price_and_offer); reflexivity. Defined.

(** ** The lookup map of the previous packages *)

Lemma prevBasePackageMap_snoc (prev : list Package) (p : Package) :
  prevBasePackageMap (prev ++ [p]) =
  <[getBasePackageKey p :=
      {| percentageKey := getPackageKeyWithPercentage p;
         fullKey := getFullPackageKey p; pkg := p |}]> (prevBasePackageMap prev).
Proof. unfold prevBasePackageMap. by rewrite foldl_app. Qed.

Lemma prevBasePackageMap_nil : prevBasePackageMap [] = ∅.
Proof. reflexivity. Qed.

(** An entry of the map belongs to a previous package with that base key and
    holds that package's own keys. *)
Lemma prevBasePackageMap_lookup (prev : list Package) (k : string) (pd : PrevData) :
  prevBasePackageMap prev !! k = Some pd →
  pkg pd ∈ prev ∧ getBasePackageKey (pkg pd) = k ∧
  percentageKey pd = getPackageKeyWithPercentage (pkg pd) ∧
  fullKey pd = getFullPackageKey (pkg pd).
Proof.
  induction prev as [|p prev IH] using rev_ind.
  - by rewrite prevBasePackageMap_nil, lookup_empty.
  - rewrite prevBasePackageMap_snoc, lookup_insert. case_decide as Hk.
    + intros [= <-]. simpl. split_and!; try done.
      apply elem_of_app. right. by apply list_elem_of_singleton.
    + intros H. destruct (IH H) as (? & ? & ? & ?). split_and!; try done.
      apply elem_of_app. by left.
Qed.

Lemma prevBasePackageMap_lookup_None (prev : list Package) (k : string) :
  prevBasePackageMap prev !! k = None ↔ ∀ p, p ∈ prev → getBasePackageKey p ≠ k.
Proof.
  induction prev as [|p prev IH] using rev_ind.
  - rewrite prevBasePackageMap_nil, lookup_empty.
    split; [intros _ p Hp; by apply elem_of_nil in Hp | done].
  - rewrite prevBasePackageMap_snoc, lookup_insert. case_decide as Hk.
    + split; [done | intros H; exfalso; apply (H p); [|done]].
      apply elem_of_app. right. by apply list_elem_of_singleton.
    + rewrite IH. split.
      * intros H q [Hq | Hq%list_elem_of_singleton]%elem_of_app; [by apply H | by subst].
      * intros H q Hq. apply H. apply elem_of_app. by left.
Qed.

(** With distinct base keys the entry of a previous package is its own. *)
Lemma prevBasePackageMap_lookup_NoDup (prev : list Package) (p : Package) :
  NoDup (getBasePackageKey <$> prev) → p ∈ prev →
  prevBasePackageMap prev !! getBasePackageKey p =
  Some {| percentageKey := getPackageKeyWithPercentage p;
          fullKey := getFullPackageKey p; pkg := p |}.
Proof.
  induction prev as [|q prev IH] using rev_ind; [by intros _ ?%elem_of_nil|].
  rewrite fmap_app, NoDup_app. simpl. intros (Hnd & Hdisj & _) Hin.
  rewrite prevBasePackageMap_snoc, lookup_insert. case_decide as Hk.
  - apply elem_of_app in Hin as [Hin | Hin%list_elem_of_singleton]; [|by subst].
    exfalso. apply (Hdisj (getBasePackageKey p)).
    + by apply list_elem_of_fmap_2.
    + rewrite <- Hk. by apply list_elem_of_singleton.
  - apply elem_of_app in Hin as [Hin | Hin%list_elem_of_singleton]; [by apply IH|].
    by subst.
Qed.

(** ** The loop over the current packages *)

Lemma analyzePackages_fold prev packages cur :
  analyzePackages prev packages cur =
  analyzeFold (prevBasePackageMap prev) (zeroCounters, []) (zip packages cur).
Proof. reflexivity. Qed.

Lemma analyzeFold_cons prevMap acc el c (l : list (PackageElement * Package)) :
  analyzeFold prevMap acc ((el, c) :: l) =
  analyzeFold prevMap
    ((analyzePackage prevMap acc.1 el c).1,
     acc.2 ++ (analyzePackage prevMap acc.1 el c).2) l.
Proof.
  unfold analyzeFold. simpl. by destruct (analyzePackage prevMap acc.1 el c).
Qed.

Lemma analyzePackage_new prevMap ctr el c :
  prevMap !! getBasePackageKey c = None →
  analyzePackage prevMap ctr el c =
  ({| newCount := S (newCount ctr);
      offerChangedCount := offerChangedCount ctr;
      priceChangedCount := priceChangedCount ctr |},
   [ClassListAdd el "package-new"]).
Proof. intros H. unfold analyzePackage. by rewrite H. Qed.

Lemma analyzePackage_unchanged prevMap ctr el c pd :
  prevMap !! getBasePackageKey c = Some pd →
  percentageKey pd = getPackageKeyWithPercentage c →
  fullKey pd = getFullPackageKey c →
  analyzePackage prevMap ctr el c = (ctr, []).
Proof.
  intros H Hp Hf. unfold analyzePackage. rewrite H. simpl.
  by rewrite !decide_False by (intros ?; done).
Qed.

Lemma analyzeFold_all_new prevMap ctr effs (l : list (PackageElement * Package)) :
  (∀ x, x ∈ l → prevMap !! getBasePackageKey x.2 = None) →
  analyzeFold prevMap (ctr, effs) l =
  ({| newCount := length l + newCount ctr;
      offerChangedCount := offerChangedCount ctr;
      priceChangedCount := priceChangedCount ctr |},
   effs ++ ((λ x, ClassListAdd x.1 "package-new") <$> l)).
Proof.
  revert ctr effs. induction l as [|[el c] l IH]; intros ctr effs H.
  - simpl. destruct ctr. by rewrite app_nil_r.
  - rewrite analyzeFold_cons. simpl.
    rewrite analyzePackage_new by (apply (H (el, c)), elem_of_cons; by left).
    simpl. rewrite IH by (intros; apply H, elem_of_cons; by right). simpl.
    rewrite <- app_assoc. simpl. do 2 f_equal. lia.
Qed.

Lemma analyzeFold_all_unchanged prevMap ctr effs (l : list (PackageElement * Package)) :
  (∀ x, x ∈ l →
     ∃ pd, prevMap !! getBasePackageKey x.2 = Some pd ∧
           percentageKey pd = getPackageKeyWithPercentage x.2 ∧
           fullKey pd = getFullPackageKey x.2) →
  analyzeFold prevMap (ctr, effs) l = (ctr, effs).
Proof.
  revert ctr effs. induction l as [|[el c] l IH]; intros ctr effs H; [done|].
  rewrite analyzeFold_cons. simpl.
  destruct (H (el, c)) as (pd & Hl & Hp & Hf); [apply elem_of_cons; by left|].
  rewrite (analyzePackage_unchanged _ _ _ _ pd) by done.
  simpl. rewrite app_nil_r. apply IH. intros; apply H, elem_of_cons; by right.
Qed.

Lemma mapJs_length {A B} (f : A → JsResult B) (l : list A) (ys : list B) :
  mapJs f l = Ok ys → length ys = length l.
Proof.
  revert ys. induction l as [|x l IH]; intros ys; simpl.
  - by intros [= <-].
  - destruct (f x); [|done]. destruct (mapJs f l); [|done].
    intros [= <-]. simpl. f_equal. by apply IH.
Qed.

Lemma fmap_fst_zip_same_length {A B} (l : list A) (k : list B) :
  length l = length k → fst <$> zip l k = l.
Proof.
  revert k. induction l as [|x l IH]; intros [|y k] Hlen; try done.
  simpl in *. f_equal. apply IH. lia.
Qed.

(** ** C1: a changed percentage key is reported as a changed offer *)

(** C1.  When the base key of a current package has an entry in the map of
    the previous packages and the percentage key of the previous package of
    that entry differs from the current one, the package is marked
    [package-offer-changed] and the previous package's total text and
    efficiency text are displayed.  Nothing is assumed about the full keys:
    the test on the percentage key comes first.  The entry is a previous
    package with the same base key. *)
Theorem C1_offer_changed_first (prev : list Package) (ctr : Counters)
    (el : PackageElement) (c : Package) (pd : PrevData) :
  prevBasePackageMap prev !! getBasePackageKey c = Some pd →
  getPackageKeyWithPercentage (pkg pd) ≠ getPackageKeyWithPercentage c →
  pkg pd ∈ prev ∧ getBasePackageKey (pkg pd) = getBasePackageKey c ∧
  analyzePackage (prevBasePackageMap prev) ctr el c =
    ({| newCount := newCount ctr;
        offerChangedCount := S (offerChangedCount ctr);
        priceChangedCount := priceChangedCount ctr |},
     [ClassListAdd el "package-offer-changed";
      DisplayOldPackageTotal el (total (pkg pd)) (efficiencyText (pkg pd))]).
Proof.
  intros Hlook Hne.
  destruct (prevBasePackageMap_lookup _ _ _ Hlook) as (Hin & Hbase & Hpct & _).
  split_and!; try done.
  unfold analyzePackage. rewrite Hlook. simpl.
  rewrite decide_True; [done|]. by rewrite Hpct.
Qed.

Lemma C1_witness :
  analyzePackage (prevBasePackageMap [samplePrev]) zeroCounters sampleElement
    sampleOffer =
  ({| newCount := 0; offerChangedCount := 1; priceChangedCount := 0 |},
   [ClassListAdd sampleElement "package-offer-changed";
    DisplayOldPackageTotal sampleElement "$10" "70% of $100"]).
Proof.
  refine (proj2 (proj2 (C1_offer_changed_first [samplePrev] zeroCounters
    sampleElement sampleOffer
    {| percentageKey := getPackageKeyWithPercentage samplePrev;
       fullKey := getFullPackageKey samplePrev; pkg := samplePrev |} _ _))).
  - vm_compute. reflexivity.
  - vm_compute. discriminate.
Defined.

(** ** The steps of one cycle *)

Lemma step_Trigger_idle lc st packages currentPackages :
  isInitialized st = false → isInitializing st = false →
  packages ≠ [] →
  mapJs (parsePackage lc) packages = Ok currentPackages →
  step lc st (Trigger packages) =
  {| isInitialized := false; isInitializing := true;
     counters := zeroCounters; packageData := packageData st;
     annotations := annotations st;
     tasks := tasks st ++ [AwaitGet packages currentPackages];
     uncaught := uncaught st |}.
Proof.
  intros Hi Hing Hne Hparse. unfold step, beginInitialization.
  rewrite Hi, Hing. cbn [orb]. unfold beginCycle.
  cbn [isInitialized isInitializing counters packageData annotations tasks uncaught].
  rewrite Hi. destruct packages as [|e packages]; [done|]. by rewrite Hparse.
Qed.

Lemma step_Settle_get lc st packages currentPackages :
  tasks st = [AwaitGet packages currentPackages] →
  step lc st (Settle 0 true) =
  {| isInitialized := isInitialized st; isInitializing := isInitializing st;
     counters :=
       (analyzePackages (prevPackagesOf (packageData st)) packages currentPackages).1;
     packageData := packageData st;
     annotations :=
       annotations st ++
       (analyzePackages (prevPackagesOf (packageData st)) packages currentPackages).2;
     tasks := [AwaitSet (packagesToStore currentPackages)];
     uncaught := uncaught st |}.
Proof.
  intros Ht. unfold step. rewrite Ht.
  change ([AwaitGet packages currentPackages] !! 0)
    with (Some (AwaitGet packages currentPackages)).
  unfold resume. rewrite Ht.
  by destruct (analyzePackages (prevPackagesOf (packageData st)) packages
                 currentPackages).
Qed.

Lemma step_Settle_set lc st toStore :
  tasks st = [AwaitSet toStore] →
  step lc st (Settle 0 true) =
  {| isInitialized := true; isInitializing := isInitializing st;
     counters := counters st; packageData := Some toStore;
     annotations := annotations st; tasks := [AwaitReturn];
     uncaught := uncaught st |}.
Proof.
  intros Ht. unfold step. rewrite Ht.
  change ([AwaitSet toStore] !! 0) with (Some (AwaitSet toStore)).
  unfold resume. by rewrite Ht.
Qed.

Lemma step_Settle_return lc st fulfilled :
  tasks st = [AwaitReturn] →
  step lc st (Settle 0 fulfilled) =
  {| isInitialized := isInitialized st; isInitializing := false;
     counters := counters st; packageData := packageData st;
     annotations := annotations st; tasks := [];
     uncaught := uncaught st |}.
Proof.
  intros Ht. unfold step. rewrite Ht.
  change ([AwaitReturn] !! 0) with (Some AwaitReturn).
  unfold resume. by rewrite Ht.
Qed.

Lemma run_cons lc st ev evs : run lc st (ev :: evs) = run lc (step lc st ev) evs.
Proof. reflexivity. Qed.

Lemma run_nil lc st : run lc st [] = st.
Proof. reflexivity. Qed.

(** A whole cycle from the start of the script. *)
Lemma run_cycle lc stored packages currentPackages :
  packages ≠ [] →
  mapJs (parsePackage lc) packages = Ok currentPackages →
  run lc (startState stored)
    [Trigger packages; Settle 0 true; Settle 0 true; Settle 0 true] =
  {| isInitialized := true; isInitializing := false;
     counters := (analyzePackages (prevPackagesOf stored) packages currentPackages).1;
     packageData := Some (packagesToStore currentPackages);
     annotations := (analyzePackages (prevPackagesOf stored) packages currentPackages).2;
     tasks := []; uncaught := 0 |}.
Proof.
  intros Hne Hparse.
  rewrite run_cons, (step_Trigger_idle lc _ packages currentPackages) by done.
  rewrite run_cons, (step_Settle_get lc _ packages currentPackages) by reflexivity.
  rewrite run_cons, (step_Settle_set lc _ (packagesToStore currentPackages))
    by reflexivity.
  by rewrite run_cons, (step_Settle_return lc _ true), run_nil by reflexivity.
Qed.

(** ** C3: a package without a previous entry is new *)

(** C3.  A current package whose base key is the base key of no previous
    package is marked [package-new].  After the reset handler has cleared the
    store and the page has reloaded, a cycle reads no stored packages and
    marks every package of the page [package-new]. *)
Theorem C3_unmatched_is_new :
  (∀ (prev : list Package) (ctr : Counters) (el : PackageElement) (c : Package),
      (∀ p, p ∈ prev → getBasePackageKey p ≠ getBasePackageKey c) →
      analyzePackage (prevBasePackageMap prev) ctr el c =
        ({| newCount := S (newCount ctr);
            offerChangedCount := offerChangedCount ctr;
            priceChangedCount := priceChangedCount ctr |},
         [ClassListAdd el "package-new"])) ∧
  (∀ (localeCompare : string → string → comparison) (st : State)
     (packages : list PackageElement) (currentPackages : list Package),
      packages ≠ [] →
      mapJs (parsePackage localeCompare) packages = Ok currentPackages →
      let st' := run localeCompare st [ClearSettled; Trigger packages; Settle 0 true] in
      annotations st' = (λ el, ClassListAdd el "package-new") <$> packages ∧
      counters st' = {| newCount := length packages; offerChangedCount := 0;
                        priceChangedCount := 0 |}).
Proof.
  split.
  - intros prev ctr el c H. apply analyzePackage_new.
    by apply prevBasePackageMap_lookup_None.
  - intros lc st packages cur Hne Hparse.
    rewrite run_cons. change (step lc st ClearSettled) with (startState None).
    rewrite run_cons, (step_Trigger_idle lc _ packages cur) by done.
    rewrite run_cons, (step_Settle_get lc _ packages cur), run_nil by reflexivity.
    cbn [annotations counters packageData startState prevPackagesOf].
    rewrite analyzePackages_fold, analyzeFold_all_new.
    2:{ intros x _. by rewrite prevBasePackageMap_nil, lookup_empty. }
    apply mapJs_length in Hparse. cbn [fst snd app zeroCounters newCount
      offerChangedCount priceChangedCount].
    split.
    + rewrite <- (fmap_fst_zip_same_length packages cur) at 2 by done.
      by rewrite <- list_fmap_compose.
    + rewrite length_zip_with. f_equal. lia.
Qed.

Lemma C3_witness :
  analyzePackage (prevBasePackageMap []) zeroCounters sampleElement samplePrev =
  ({| newCount := 1; offerChangedCount := 0; priceChangedCount := 0 |},
   [ClassListAdd sampleElement "package-new"]).
Proof.
  apply (proj1 C3_unmatched_is_new [] zeroCounters sampleElement samplePrev).
  intros p Hp. by apply elem_of_nil in Hp.
Defined.

(** ** C6: missing parts of a listing *)

Lemma orElse_None (d : string) : orElse None d = d.
Proof. reflexivity. Qed.

(** With a heading region [parsePackage] returns, whatever else is missing. *)
Lemma parsePackage_with_heading lc (h : HeadingElement) (items : list LiElement) :
  ∃ p, parsePackage lc {| pe_heading := Some h; pe_items := items |} = Ok p.
Proof. unfold parsePackage. simpl. eauto. Qed.

(** C6.  A listing without a heading region makes [parsePackage] throw: the
    heading is [null] and a method is called on it.  One such listing on the
    page ends the cycle before anything is annotated, with the guard left
    set.  Every other part may be missing: with a heading whose seller link, total and efficiency
    indicator are absent the three texts and the percentage are empty, and
    an item without link, condition marker and price element has empty name,
    condition and price, and quantity ["1"] when its text has no
    digits-then-x. *)
Theorem C6_missing_heading_throws :
  (∀ lc items, parsePackage lc {| pe_heading := None; pe_items := items |}
               = Throw TypeError) ∧
  (∀ lc, mapJs (parsePackage lc) [sampleElement; noHeading] = Throw TypeError) ∧
  (∀ lc stored,
      let st := step lc (startState stored) (Trigger [sampleElement; noHeading]) in
      uncaught st = 1 ∧ isInitializing st = true ∧ tasks st = [] ∧
      annotations st = []) ∧
  (∀ lc items,
      parsePackage lc
        {| pe_heading := Some {| h_a := None; h_strong := None; h_efficiency := None |};
           pe_items := items |}
      = Ok {| username := EmptyString; total := EmptyString;
              efficiencyText := EmptyString; efficiencyPercentage := EmptyString;
              cards := sort (λ a b, lc (name a) (name b))
                         (parseCard <$> filter (λ li, li_more li = false) items);
              pkg_element :=
                Some {| pe_heading := Some {| h_a := None; h_strong := None;
                                              h_efficiency := None |};
                        pe_items := items |} |}) ∧
  (∀ text more,
      matchDigitsThen "x" text = None →
      parseCard {| li_a := None; li_condition := None; li_strong := None;
                   li_textContent := text; li_more := more |}
      = {| name := EmptyString; condition := EmptyString; price := EmptyString;
           quantity := "1";
           element := Some {| li_a := None; li_condition := None;
                              li_strong := None; li_textContent := text;
                              li_more := more |} |}).
Proof.
  split_and!; try done.
  intros text more H. unfold parseCard. simpl. by rewrite H.
Qed.

Lemma C6_witness :
  parseCard {| li_a := None; li_condition := None; li_strong := None;
               li_textContent := "Foo"; li_more := false |}
  = {| name := EmptyString; condition := EmptyString; price := EmptyString;
       quantity := "1";
       element := Some {| li_a := None; li_condition := None;
                          li_strong := None; li_textContent := "Foo";
                          li_more := false |} |}.
Proof.
  apply (proj2 (proj2 (proj2 (proj2 C6_missing_heading_throws))) "Foo" false).
  reflexivity.
Defined.

(** ** C5: the order of the cards *)

Lemma codeCompare_refl (s : string) : codeCompare s s = Eq.
Proof.
  unfold codeCompare. pose proof (String.compare_antisym s s) as H.
  by destruct (String.compare s s).
Qed.

(** C5, at two cards with one name.  The comparator looks at the names
    only and the sort is stable, so two cards with the same name stay in the
    order of the markup: the two listings below have the same items in
    different orders, and their snapshots and base keys differ.  This holds
    for every collation, since a name compares equal to itself. *)
Theorem C5_same_name_keeps_markup_order (lc : string → string → comparison) :
  (∀ s, lc s s = Eq) →
  pe_items sameNameA ≡ₚ pe_items sameNameB ∧
  ∃ a b,
    parsePackage lc sameNameA = Ok a ∧ parsePackage lc sameNameB = Ok b ∧
    stripCard <$> cards a ≠ stripCard <$> cards b ∧
    getBasePackageKey a ≠ getBasePackageKey b ∧
    getBasePackageKey a = "bob-1x Foo NM|1x Foo LP" ∧
    getBasePackageKey b = "bob-1x Foo LP|1x Foo NM".
Proof.
  intros Hrefl. split; [apply Permutation_swap|].
  eexists _, _. split_and!; try reflexivity.
  - unfold parsePackage, sort. simpl. rewrite (Hrefl "Foo"). simpl. discriminate.
  - unfold parsePackage, sort, getBasePackageKey. simpl. rewrite (Hrefl "Foo").
    vm_compute. discriminate.
  - unfold parsePackage, sort, getBasePackageKey. simpl. by rewrite (Hrefl "Foo").
  - unfold parsePackage, sort, getBasePackageKey. simpl. by rewrite (Hrefl "Foo").
Qed.

Lemma C5_witness :
  pe_items sameNameA ≡ₚ pe_items sameNameB ∧
  ∃ a b,
    parsePackage codeCompare sameNameA = Ok a ∧
    parsePackage codeCompare sameNameB = Ok b ∧
    stripCard <$> cards a ≠ stripCard <$> cards b ∧
    getBasePackageKey a ≠ getBasePackageKey b ∧
    getBasePackageKey a = "bob-1x Foo NM|1x Foo LP" ∧
    getBasePackageKey b = "bob-1x Foo LP|1x Foo NM".
Proof. apply (C5_same_name_keeps_markup_order codeCompare codeCompare_refl). Defined.

(** ** Splitting a concatenation at a separator *)

Lemma hasChar_app (c : ascii) (a b : string) :
  hasChar c (a +:+ b) = hasChar c a || hasChar c b.
Proof.
  induction a as [|x a IH]; [done|]. rewrite append_cons. simpl.
  by case_decide.
Qed.

Lemma hasChar_sep (c : ascii) (a b : string) : hasChar c (a +:+ String c b) = true.
Proof.
  rewrite hasChar_app. simpl. rewrite decide_True by done. apply orb_true_r.
Qed.

(** At the first separator, when it is absent from what comes before. *)
Lemma split_first (c : ascii) (u u' r r' : string) :
  hasChar c u = false → hasChar c u' = false →
  u +:+ String c r = u' +:+ String c r' → u = u' ∧ r = r'.
Proof.
  revert u'. induction u as [|x u IH]; intros [|y u']; simpl.
  - intros _ _. rewrite !append_nil. by intros [= ->].
  - case_decide as Hy; [done|]. intros _ _. rewrite append_nil, append_cons.
    intros [= E _]. by destruct Hy.
  - case_decide as Hx; [done|]. intros _ _. rewrite append_nil, append_cons.
    intros [= E _]. by destruct Hx.
  - case_decide; [done|]. case_decide; [done|]. intros Hu Hu'.
    rewrite !append_cons. intros [= -> E]. destruct (IH _ Hu Hu' E) as [-> ->]. done.
Qed.

(** At the last separator, when it is absent from what comes after. *)
Lemma split_last (c : ascii) (u u' r r' : string) :
  hasChar c r = false → hasChar c r' = false →
  u +:+ String c r = u' +:+ String c r' → u = u' ∧ r = r'.
Proof.
  intros Hr Hr'. revert u'. induction u as [|x u IH]; intros [|y u'].
  - rewrite !append_nil. by intros [= ->].
  - rewrite append_nil, append_cons. intros [= _ E].
    rewrite E, hasChar_sep in Hr. done.
  - rewrite append_nil, append_cons. intros [= _ E].
    rewrite <- E, hasChar_sep in Hr'. done.
  - rewrite !append_cons. intros [= -> E]. destruct (IH _ E) as [-> ->]. done.
Qed.

Lemma join_cons2 (sep x y : string) (l : list string) :
  join sep (x :: y :: l) = x +:+ sep +:+ join sep (y :: l).
Proof. reflexivity. Qed.

(** [join] with a one-character separator that the non-empty elements do
    not contain is injective. *)
Lemma join_inj (c : ascii) (l l' : list string) :
  Forall (λ s, hasChar c s = false ∧ s ≠ EmptyString) l →
  Forall (λ s, hasChar c s = false ∧ s ≠ EmptyString) l' →
  join (String c EmptyString) l = join (String c EmptyString) l' → l = l'.
Proof.
  intros Hl. revert l'. induction Hl as [|x l [Hx Hxne] Hl IH]; intros l' Hl' E.
  - destruct Hl' as [|y l' [_ Hyne] Hl']; [done|]. exfalso.
    destruct l'; simpl in E; [by subst|]. destruct y; [done|].
    by rewrite append_cons in E.
  - destruct Hl' as [|y l' [Hy Hyne] Hl'].
    + exfalso. destruct l; simpl in E; [by subst|]. destruct x; [done|].
      by rewrite append_cons in E.
    + destruct l as [|x2 l], l' as [|y2 l'].
      * simpl in E. by subst.
      * exfalso. rewrite join_cons2 in E. simpl in E. rewrite append_cons,
          append_nil in E. rewrite E, hasChar_sep in Hx. done.
      * exfalso. rewrite join_cons2 in E. simpl in E. rewrite append_cons,
          append_nil in E. rewrite <- E, hasChar_sep in Hy. done.
      * rewrite !join_cons2 in E. rewrite !append_cons, !append_nil in E.
        destruct (split_first _ _ _ _ _ Hx Hy E) as [-> E'].
        f_equal. by apply IH.
Qed.

(** ** C7: the keys as functions of the snapshot *)

Lemma cardKey_unfold (card : Card) :
  cardKey card =
  quantity card +:+ String "x" (String " " (name card +:+ String " " (condition card))).
Proof. reflexivity. Qed.

Lemma cardKey_nonempty (card : Card) : cardKey card ≠ EmptyString.
Proof.
  rewrite cardKey_unfold. destruct (quantity card); [done|]. by rewrite append_cons.
Qed.

Lemma cardKey_no_pipe (card : Card) :
  cardDelimiterFree card → hasChar "|" (cardKey card) = false.
Proof.
  intros (_ & Hq & Hn & Hc & _). rewrite cardKey_unfold, hasChar_app. simpl.
  rewrite hasChar_app. simpl. by rewrite Hq, Hn, Hc.
Qed.

Lemma cardKey_inj (a b : Card) :
  cardDelimiterFree a → cardDelimiterFree b →
  cardKey a = cardKey b → baseComponents a = baseComponents b.
Proof.
  intros (Hqa & _ & _ & _ & Hca) (Hqb & _ & _ & _ & Hcb).
  rewrite !cardKey_unfold. intros E.
  destruct (split_first _ _ _ _ _ Hqa Hqb E) as [Eq [= E']].
  destruct (split_last _ _ _ _ _ Hca Hcb E') as [En Ec].
  unfold baseComponents. by rewrite Eq, En, Ec.
Qed.

Lemma cardKeys_inj (l l' : list Card) :
  Forall cardDelimiterFree l → Forall cardDelimiterFree l' →
  cardKey <$> l = cardKey <$> l' → baseComponents <$> l = baseComponents <$> l'.
Proof.
  intros Hl. revert l'. induction Hl as [|a l Ha Hl IH]; intros l' Hl' E.
  - by destruct l'.
  - destruct Hl' as [|b l' Hb Hl']; [done|]. simpl in *.
    injection E as E1 E2. f_equal; [by apply cardKey_inj | by apply IH].
Qed.

Lemma getBasePackageKey_inj (a b : Package) :
  delimiterFree a → delimiterFree b →
  getBasePackageKey a = getBasePackageKey b →
  username a = username b ∧ baseComponents <$> cards a = baseComponents <$> cards b.
Proof.
  intros [Hua Hca] [Hub Hcb]. unfold getBasePackageKey. simpl.
  rewrite !append_cons, !append_nil. intros E.
  destruct (split_first _ _ _ _ _ Hua Hub E) as [Eu Ej]. split; [done|].
  apply cardKeys_inj; try done. apply (join_inj "|"); try done.
  - apply Forall_fmap. eapply Forall_impl; [exact Hca|]. simpl.
    intros c Hc. split; [by apply cardKey_no_pipe | apply cardKey_nonempty].
  - apply Forall_fmap. eapply Forall_impl; [exact Hcb|]. simpl.
    intros c Hc. split; [by apply cardKey_no_pipe | apply cardKey_nonempty].
Qed.

Lemma stripPackage_keys (p : Package) :
  getBasePackageKey (stripPackage p) = getBasePackageKey p ∧
  getPackageKeyWithPercentage (stripPackage p) = getPackageKeyWithPercentage p ∧
  getFullPackageKey (stripPackage p) = getFullPackageKey p.
Proof.
  unfold getPackageKeyWithPercentage, getBasePackageKey, getFullPackageKey.
  simpl. by rewrite <- !list_fmap_compose.
Qed.

(** C7, as far as it holds.  Two snapshots with the same stored fields (all
    fields but the references to the markup) have the same base, percentage
    and full key.  Two snapshots that differ in the seller name or in some
    card's quantity, name or condition have different base keys when they keep
    clear of the separators: no [-] in the seller name, no [x] in a
    quantity, no [|] in a quantity, name or condition, no space in a
    condition. *)
Theorem C7_keys_pure_and_separated (a b : Package) :
  (stripPackage a = stripPackage b →
     getBasePackageKey a = getBasePackageKey b ∧
     getPackageKeyWithPercentage a = getPackageKeyWithPercentage b ∧
     getFullPackageKey a = getFullPackageKey b) ∧
  (delimiterFree a → delimiterFree b →
     username a ≠ username b ∨
       baseComponents <$> cards a ≠ baseComponents <$> cards b →
     getBasePackageKey a ≠ getBasePackageKey b).
Proof.
  split.
  - intros E.
    destruct (stripPackage_keys a) as (<- & <- & <-).
    destruct (stripPackage_keys b) as (<- & <- & <-). by rewrite E.
  - intros Ha Hb Hdiff E.
    destruct (getBasePackageKey_inj a b Ha Hb E) as [Eu Ec].
    by destruct Hdiff.
Qed.

Lemma C7_witness : getBasePackageKey samplePrev ≠ getBasePackageKey sampleCarol.
Proof.
  apply (proj2 (C7_keys_pure_and_separated samplePrev sampleCarol)).
  - split; [reflexivity|]. repeat constructor.
  - split; [reflexivity|]. repeat constructor.
  - left. vm_compute. discriminate.
Defined.

(** The separators can occur in the texts: a card [Foo] in condition
    [Bar NM] and a card [Foo Bar] in condition [NM] give one base key. *)
Lemma C7_counterexample :
  baseComponents <$> cards collideA ≠ baseComponents <$> cards collideB ∧
  getBasePackageKey collideA = getBasePackageKey collideB.
Proof. split; [vm_compute; discriminate | reflexivity]. Qed.

(** ** C2: a change of prices only *)

Lemma prevCardMap_snoc (l : list Card) (card : Card) :
  prevCardMap (l ++ [card]) = <[cardKey card := card]> (prevCardMap l).
Proof. unfold prevCardMap. by rewrite foldl_app. Qed.

Lemma prevCardMap_nil : prevCardMap [] = ∅.
Proof. reflexivity. Qed.

Lemma prevCardMap_lookup (l : list Card) (k : string) (pc : Card) :
  prevCardMap l !! k = Some pc → pc ∈ l ∧ cardKey pc = k.
Proof.
  induction l as [|x l IH] using rev_ind.
  - by rewrite prevCardMap_nil, lookup_empty.
  - rewrite prevCardMap_snoc, lookup_insert. case_decide as Hk.
    + intros [= <-]. split; [|done]. apply elem_of_app. right.
      by apply list_elem_of_singleton.
    + intros H. destruct (IH H). split; [|done]. apply elem_of_app. by left.
Qed.

Lemma prevCardMap_lookup_is_Some (l : list Card) (k : string) :
  k ∈ cardKey <$> l → is_Some (prevCardMap l !! k).
Proof.
  induction l as [|x l IH] using rev_ind; [by intros ?%elem_of_nil|].
  rewrite fmap_app, prevCardMap_snoc, lookup_insert. case_decide as Hk; [by eauto|].
  intros [H | H%list_elem_of_singleton]%elem_of_app; [by apply IH | done].
Qed.

Lemma prevCardMap_lookup_NoDup (l : list Card) (i : nat) (pc : Card) :
  NoDup (cardKey <$> l) → l !! i = Some pc →
  prevCardMap l !! cardKey pc = Some pc.
Proof.
  revert i. induction l as [|x l IH] using rev_ind; [done|].
  intros i. rewrite fmap_app, NoDup_app. simpl. intros (Hnd & Hdisj & _) Hi.
  rewrite prevCardMap_snoc, lookup_insert. case_decide as Hk.
  - apply lookup_app_Some in Hi as [Hi | [_ Hi]].
    + exfalso. apply (Hdisj (cardKey pc)).
      * apply list_elem_of_fmap_2. by eapply list_elem_of_lookup_2.
      * rewrite <- Hk. by apply list_elem_of_singleton.
    + apply list_lookup_singleton_Some in Hi as [_ ->]. done.
  - apply lookup_app_Some in Hi as [Hi | [_ Hi]]; [by eapply IH|].
    apply list_lookup_singleton_Some in Hi as [_ ->]. done.
Qed.

(** Equal sellers and different totals without [-] give different full
    keys. *)
Lemma getFullPackageKey_total (p c : Package) :
  username p = username c →
  hasChar "-" (total p) = false → hasChar "-" (total c) = false →
  getFullPackageKey p = getFullPackageKey c → total p = total c.
Proof.
  intros Hu Hp Hc. unfold getFullPackageKey. simpl. rewrite Hu.
  intros E%append_inv_head. rewrite !append_cons, !append_nil in E.
  injection E as E. by destruct (split_first _ _ _ _ _ Hp Hc E).
Qed.

(** C2, as far as it holds.  Let the entry found for a current package hold
    a previous package with the same seller, the same cards (quantity, name
    and condition, in order) and the same percentage, let some price text
    differ and the total texts differ, and let neither total text contain
    [-].  Then the package is marked [package-price-changed], the previous
    total and efficiency text are displayed, and old prices are displayed
    card by card as [oldPriceOf] says: an old price is the price of a
    previous card with the same card key and differs from the current price;
    a card without an old price has its own price in a previous card with
    the same key; and when the card keys are distinct, the card at each
    position gets the old price of the previous card at that position
    exactly when the two prices differ. *)
Theorem C2_price_changed (prev : list Package) (ctr : Counters)
    (el : PackageElement) (c : Package) (pd : PrevData) :
  prevBasePackageMap prev !! getBasePackageKey c = Some pd →
  username (pkg pd) = username c →
  baseComponents <$> cards (pkg pd) = baseComponents <$> cards c →
  efficiencyPercentage (pkg pd) = efficiencyPercentage c →
  price <$> cards (pkg pd) ≠ price <$> cards c →
  total (pkg pd) ≠ total c →
  hasChar "-" (total (pkg pd)) = false →
  hasChar "-" (total c) = false →
  let m := prevCardMap (cards (pkg pd)) in
  analyzePackage (prevBasePackageMap prev) ctr el c =
    ({| newCount := newCount ctr;
        offerChangedCount := offerChangedCount ctr;
        priceChangedCount := S (priceChangedCount ctr) |},
     ClassListAdd el "package-price-changed"
     :: DisplayOldPackageTotal el (total (pkg pd)) (efficiencyText (pkg pd))
     :: omap (λ card, (λ old, DisplayOldPriceInfo (element card) old EmptyString)
                        <$> oldPriceOf m card) (cards c)) ∧
  (∀ card old, card ∈ cards c → oldPriceOf m card = Some old →
     old ≠ price card ∧
     ∃ prevCard, prevCard ∈ cards (pkg pd) ∧ cardKey prevCard = cardKey card ∧
                 price prevCard = old) ∧
  (∀ card, card ∈ cards c → oldPriceOf m card = None →
     ∃ prevCard, prevCard ∈ cards (pkg pd) ∧ cardKey prevCard = cardKey card ∧
                 price prevCard = price card) ∧
  (NoDup (cardKey <$> cards c) →
   ∀ i prevCard card,
     cards (pkg pd) !! i = Some prevCard → cards c !! i = Some card →
     oldPriceOf m card =
       if decide (price prevCard = price card) then None else Some (price prevCard)).
Proof.
  intros Hlook Hu Hcards Hpct Hprice Htotal Hdp Hdc m.
  destruct (prevBasePackageMap_lookup _ _ _ Hlook) as (_ & Hbase & Hpk & Hfk).
  assert (Hkeys : cardKey <$> cards (pkg pd) = cardKey <$> cards c).
  { change cardKey with ((λ x : string * string * string,
      x.1.1 +:+ "x " +:+ x.1.2 +:+ " " +:+ x.2) ∘ baseComponents).
    by rewrite !list_fmap_compose, Hcards. }
  split_and!.
  - unfold analyzePackage. rewrite Hlook. simpl.
    rewrite decide_False.
    2:{ intros H. apply H. rewrite Hpk. unfold getPackageKeyWithPercentage.
        by rewrite Hbase, Hpct. }
    rewrite decide_True; [done|].
    rewrite Hfk. intros E. by apply Htotal, getFullPackageKey_total.
  - intros card old _. unfold oldPriceOf.
    destruct (m !! cardKey card) as [prevCard|] eqn:Hm; [|done].
    case_decide as Hd; [|done]. intros [= <-].
    apply prevCardMap_lookup in Hm as [Hin Hk]. eauto.
  - intros card Hin. unfold oldPriceOf.
    destruct (m !! cardKey card) as [prevCard|] eqn:Hm.
    + case_decide as Hd; [done|]. intros _.
      apply prevCardMap_lookup in Hm as [Hin' Hk].
      by exists prevCard.
    + exfalso. assert (Hs : is_Some (m !! cardKey card)).
      { apply prevCardMap_lookup_is_Some. rewrite Hkeys.
        by apply list_elem_of_fmap_2. }
      rewrite Hm in Hs. by destruct Hs.
  - intros Hnd i prevCard card Hp Hc.
    assert (Hk : cardKey prevCard = cardKey card).
    { assert (H1 : (cardKey <$> cards (pkg pd)) !! i = Some (cardKey prevCard))
        by (by rewrite list_lookup_fmap, Hp).
      rewrite Hkeys, list_lookup_fmap, Hc in H1. by injection H1. }
    unfold oldPriceOf. rewrite <- Hk.
    unfold m. rewrite (prevCardMap_lookup_NoDup _ i prevCard); [|by rewrite Hkeys|done].
    destruct (decide (price prevCard = price card)).
    + by rewrite decide_False by (intros H; by apply H).
    + by rewrite decide_True.
Qed.

Lemma C2_witness :
  analyzePackage (prevBasePackageMap [samplePrev]) zeroCounters sampleElement
    samplePrice =
  ({| newCount := 0; offerChangedCount := 0; priceChangedCount := 1 |},
   [ClassListAdd sampleElement "package-price-changed";
    DisplayOldPackageTotal sampleElement "$10" "70% of $100";
    DisplayOldPriceInfo None "$10" EmptyString]).
Proof.
  refine (proj1 (C2_price_changed [samplePrev] zeroCounters sampleElement
    samplePrice
    {| percentageKey := getPackageKeyWithPercentage samplePrev;
       fullKey := getFullPackageKey samplePrev; pkg := samplePrev |}
    _ _ _ _ _ _ _ _)).
  - vm_compute. reflexivity.
  - reflexivity.
  - reflexivity.
  - reflexivity.
  - vm_compute. discriminate.
  - vm_compute. discriminate.
  - reflexivity.
  - reflexivity.
Defined.

(** A total text and a price text with [-] in them: seller, card and
    percentage are the same, the price and the total differ, and the two full
    keys are one string, so nothing is marked. *)
Lemma C2_counterexample :
  prevBasePackageMap [priceCollideP] !! getBasePackageKey priceCollideC =
    Some {| percentageKey := getPackageKeyWithPercentage priceCollideP;
            fullKey := getFullPackageKey priceCollideP; pkg := priceCollideP |} ∧
  username priceCollideP = username priceCollideC ∧
  baseComponents <$> cards priceCollideP = baseComponents <$> cards priceCollideC ∧
  efficiencyPercentage priceCollideP = efficiencyPercentage priceCollideC ∧
  price <$> cards priceCollideP ≠ price <$> cards priceCollideC ∧
  total priceCollideP ≠ total priceCollideC ∧
  analyzePackage (prevBasePackageMap [priceCollideP]) zeroCounters sampleElement
    priceCollideC = (zeroCounters, []).
Proof.
  split_and!; try reflexivity; vm_compute; discriminate.
Qed.

(** ** C10: a second cycle over the same markup *)

Lemma stripPackage_base_keys (s : list Package) :
  getBasePackageKey <$> packagesToStore s = getBasePackageKey <$> s.
Proof.
  unfold packagesToStore. rewrite <- list_fmap_compose. apply list_fmap_ext.
  intros _ p _. simpl. apply stripPackage_keys.
Qed.

Lemma analyzePackages_same (s : list Package) (els : list PackageElement) :
  NoDup (getBasePackageKey <$> s) →
  analyzePackages s els s = (zeroCounters, []) ∧
  analyzePackages (packagesToStore s) els s = (zeroCounters, []).
Proof.
  intros Hnd. rewrite !analyzePackages_fold. split.
  - apply analyzeFold_all_unchanged. intros [el c] Hin%elem_of_zip_r. simpl in *.
    eexists. split; [by apply prevBasePackageMap_lookup_NoDup|]. done.
  - apply analyzeFold_all_unchanged. intros [el c] Hin%elem_of_zip_r. simpl in *.
    destruct (stripPackage_keys c) as (Hb & Hp & Hf).
    eexists. split.
    + rewrite <- Hb. apply prevBasePackageMap_lookup_NoDup.
      * by rewrite stripPackage_base_keys.
      * by apply list_elem_of_fmap_2.
    + done.
Qed.

(** C10, as far as it holds.  When the base keys of a sequence of snapshots
    are distinct, comparing the sequence with itself, or with what was stored
    from it, marks nothing and displays nothing.  A whole cycle over a page
    stores the stripped snapshots; after a reload a second cycle over the same
    markup makes no annotation, counts nothing and stores the same snapshots
    again. *)
Theorem C10_second_cycle_unchanged :
  (∀ (s : list Package) (els : list PackageElement),
      NoDup (getBasePackageKey <$> s) →
      analyzePackages s els s = (zeroCounters, []) ∧
      analyzePackages (packagesToStore s) els s = (zeroCounters, [])) ∧
  (∀ (localeCompare : string → string → comparison)
     (stored : option (list Package))
     (packages : list PackageElement) (currentPackages : list Package),
      packages ≠ [] →
      mapJs (parsePackage localeCompare) packages = Ok currentPackages →
      NoDup (getBasePackageKey <$> currentPackages) →
      let cycle := [Trigger packages; Settle 0 true; Settle 0 true; Settle 0 true] in
      let st1 := run localeCompare (startState stored) cycle in
      let st2 := run localeCompare (step localeCompare st1 Reload) cycle in
      isInitialized st1 = true ∧
      packageData st1 = Some (packagesToStore currentPackages) ∧
      isInitialized st2 = true ∧
      annotations st2 = [] ∧
      counters st2 = zeroCounters ∧
      packageData st2 = packageData st1).
Proof.
  split; [apply analyzePackages_same|].
  intros lc stored packages cur Hne Hparse Hnd cycle st1 st2.
  assert (H1 : st1 =
    {| isInitialized := true; isInitializing := false;
       counters := (analyzePackages (prevPackagesOf stored) packages cur).1;
       packageData := Some (packagesToStore cur);
       annotations := (analyzePackages (prevPackagesOf stored) packages cur).2;
       tasks := []; uncaught := 0 |}) by (by apply run_cycle).
  assert (H2 : st2 =
    {| isInitialized := true; isInitializing := false;
       counters := zeroCounters;
       packageData := Some (packagesToStore cur);
       annotations := [];
       tasks := []; uncaught := 0 |}).
  { unfold st2. rewrite H1.
    change (step lc _ Reload) with (startState (Some (packagesToStore cur))).
    unfold cycle. rewrite (run_cycle lc _ packages cur) by done.
    cbn [prevPackagesOf].
    by destruct (analyzePackages_same cur packages Hnd) as [_ ->]. }
  by rewrite H1, H2.
Qed.

Lemma C10_witness :
  analyzePackages [samplePrev; sampleCarol] [sampleElement; sampleElement]
    [samplePrev; sampleCarol] = (zeroCounters, []).
Proof.
  apply (proj1 C10_second_cycle_unchanged [samplePrev; sampleCarol]
           [sampleElement; sampleElement]).
  vm_compute. repeat constructor; rewrite ?elem_of_cons, ?elem_of_nil;
    intros H; repeat destruct H as [H|H]; discriminate || done.
Defined.

(** Two snapshots with one base key: both are compared with the later one,
    so the earlier one is marked as a changed offer against itself. *)
Lemma C10_counterexample :
  analyzePackages sameBaseKey [sampleElement; sampleElement] sameBaseKey =
  ({| newCount := 0; offerChangedCount := 1; priceChangedCount := 0 |},
   [ClassListAdd sampleElement "package-offer-changed";
    DisplayOldPackageTotal sampleElement "$12" "85% of $100"]).
Proof. vm_compute. reflexivity. Qed.

(** ** C4 and C9: the guard of the run controller *)

Lemma guarded_startState stored : guarded (startState stored).
Proof. split; simpl; [lia | done]. Qed.

Lemma beginInitialization_blocked lc st packages :
  isInitializing st = true → beginInitialization lc st packages = st.
Proof.
  intros H. unfold beginInitialization. rewrite H. by rewrite orb_true_r.
Qed.

Lemma guarded_idle st :
  guarded st → isInitializing st = false → tasks st = [].
Proof.
  intros [_ H] Hf. destruct (tasks st) as [|t l] eqn:E; [done|].
  rewrite H in Hf; done.
Qed.

Lemma guarded_beginInitialization lc st packages :
  guarded st → guarded (beginInitialization lc st packages).
Proof.
  intros Hg. unfold beginInitialization.
  destruct (isInitialized st) eqn:Hi; [done|].
  destruct (isInitializing st) eqn:Hing; [done|]. simpl.
  pose proof (guarded_idle st Hg Hing) as Ht.
  unfold beginCycle. simpl. rewrite Hi, Ht.
  destruct packages as [|e packages]; [split; simpl; [lia | done]|].
  destruct (mapJs (parsePackage lc) (e :: packages)); split; simpl; done || lia.
Qed.

(** A suspended task, if there is one, is the only one. *)
Lemma guarded_lookup st i t :
  guarded st → tasks st !! i = Some t → i = 0 ∧ tasks st = [t].
Proof.
  intros [Hlen _] Hi. destruct (tasks st) as [|t0 [|t1 l]]; simpl in *.
  - done.
  - destruct i; [by injection Hi as -> | done].
  - lia.
Qed.

Lemma guarded_step lc st ev : guarded st → guarded (step lc st ev).
Proof.
  intros Hg. destruct ev as [packages | i fulfilled | | |]; simpl.
  - by apply guarded_beginInitialization.
  - destruct (tasks st !! i) as [t|] eqn:Hi; [|done].
    destruct (guarded_lookup st i t Hg Hi) as [-> Ht].
    destruct Hg as [_ Hing]. rewrite Ht in Hing.
    specialize (Hing ltac:(done)).
    destruct t, fulfilled; unfold resume; simpl;
      try destruct (analyzePackages _ _ _); rewrite ?Ht; split; simpl; done || lia.
  - destruct Hg. by split.
  - apply guarded_startState.
  - apply guarded_startState.
Qed.

Lemma guarded_run lc st evs : guarded st → guarded (run lc st evs).
Proof.
  revert st. induction evs as [|ev evs IH]; intros st Hg; [done|].
  simpl. apply IH. by apply guarded_step.
Qed.

Lemma run_triggers_blocked lc st (triggers : list (list PackageElement)) :
  isInitializing st = true → run lc st (Trigger <$> triggers) = st.
Proof.
  intros H. induction triggers as [|packages triggers IH]; [done|].
  simpl. by rewrite beginInitialization_blocked.
Qed.

(** C4.  In every state the controller reaches from the start of the script,
    whatever the events and their order: at most one activation of
    [beginInitialization] is suspended; while one is suspended, at the load,
    at the save or at its return, [isInitializing] is set and a further call
    of [beginInitialization] changes nothing; and a call that passes the
    guard has set [isInitializing] when it gives control back, which is when
    the load begins. *)
Theorem C4_one_cycle_in_flight (localeCompare : string → string → comparison)
    (stored : option (list Package)) (evs : list Event) :
  let st := run localeCompare (startState stored) evs in
  length (tasks st) ≤ 1 ∧
  (tasks st ≠ [] →
     isInitializing st = true ∧
     ∀ packages, step localeCompare st (Trigger packages) = st) ∧
  (∀ packages,
     isInitialized st = false → isInitializing st = false →
     let st' := step localeCompare st (Trigger packages) in
     isInitializing st' = true ∧
     (∀ currentPackages,
        mapJs (parsePackage localeCompare) packages = Ok currentPackages →
        packages ≠ [] →
        tasks st' = [AwaitGet packages currentPackages])).
Proof.
  intros st.
  assert (Hg : guarded st) by apply guarded_run, guarded_startState.
  split_and!.
  - apply Hg.
  - intros Hne. destruct Hg as [_ Hing]. specialize (Hing Hne). split; [done|].
    intros packages. simpl. by apply beginInitialization_blocked.
  - intros packages Hi Hing. simpl. unfold beginInitialization.
    rewrite Hi, Hing. simpl. unfold beginCycle. simpl.
    rewrite Hi, (guarded_idle st Hg Hing).
    destruct packages as [|e packages]; [by split|].
    destruct (mapJs (parsePackage localeCompare) (e :: packages)) eqn:Hp; simpl.
    + split; [done|]. by intros ? [= <-] _.
    + by split.
Qed.

(** C9.  When the load or the save of the cycle in flight fails, the
    rejection reaches the host unhandled, [isInitializing] stays set, nothing
    is suspended any more, the flag [isInitialized] and the store are as they
    were, and every further call of [beginInitialization] leaves the state as
    it is.  Loading the page again clears the guard. *)
Theorem C9_failed_cycle_blocks (localeCompare : string → string → comparison)
    (stored : option (list Package)) (evs : list Event) (i : nat) (t : Task) :
  let st := run localeCompare (startState stored) evs in
  tasks st !! i = Some t → t ≠ AwaitReturn →
  let st' := step localeCompare st (Settle i false) in
  uncaught st' = S (uncaught st) ∧
  isInitializing st' = true ∧
  tasks st' = [] ∧
  isInitialized st' = isInitialized st ∧
  packageData st' = packageData st ∧
  (∀ triggers : list (list PackageElement),
     run localeCompare st' (Trigger <$> triggers) = st') ∧
  isInitializing (step localeCompare st' Reload) = false.
Proof.
  intros st Hi Hne st'.
  assert (Hg : guarded st) by apply guarded_run, guarded_startState.
  destruct (guarded_lookup st i t Hg Hi) as [-> Ht].
  destruct Hg as [_ Hing]. rewrite Ht in Hing. specialize (Hing ltac:(done)).
  assert (Hst' : st' = {| isInitialized := isInitialized st;
                          isInitializing := isInitializing st;
                          counters := counters st; packageData := packageData st;
                          annotations := annotations st; tasks := [];
                          uncaught := S (uncaught st) |}).
  { unfold st'. simpl. rewrite Hi. destruct t; simpl; rewrite ?Ht; done. }
  rewrite Hst'. simpl. split_and!; try done.
  intros triggers. by apply run_triggers_blocked.
Qed.

Lemma C9_witness :
  isInitializing
    (step codeCompare
       (run codeCompare (startState None) [Trigger [sampleElement]])
       (Settle 0 false)) = true.
Proof.
  refine (proj1 (proj2 (C9_failed_cycle_blocks codeCompare None
    [Trigger [sampleElement]] 0
    (AwaitGet [sampleElement]
       [{| username := "alice"; total := "$10"; efficiencyText := "70% of $100";
           efficiencyPercentage := "70";
           cards := [{| name := "Foo"; condition := "NM"; price := "$10";
                        quantity := "1"; element := Some sampleLi |}];
           pkg_element := Some sampleElement |}]) _ _))).
  - vm_compute. reflexivity.
  - discriminate.
Defined.

Lemma C4_witness :
  let st := run codeCompare (startState None) [Trigger [sampleElement]] in
  isInitializing st = true ∧
  step codeCompare st (Trigger [sampleElement; sampleElement]) = st.
Proof.
  split.
  - apply (proj1 (proj2 (C4_one_cycle_in_flight codeCompare None
             [Trigger [sampleElement]]))). vm_compute. discriminate.
  - apply (proj1 (proj2 (C4_one_cycle_in_flight codeCompare None
             [Trigger [sampleElement]]))). vm_compute. discriminate.
Defined.

(** ** The earliest revision, for comparison *)

(** Its key without price changes with the efficiency text. *)
Remark legacy_key_has_efficiency :
  Legacy.getPackageKeyWithoutPrice
    {| Legacy.username := "alice"; Legacy.total := "$10";
       Legacy.efficiency := "70% of $100"; Legacy.cards := cards samplePrev |}
  ≠ Legacy.getPackageKeyWithoutPrice
    {| Legacy.username := "alice"; Legacy.total := "$10";
       Legacy.efficiency := "85% of $100"; Legacy.cards := cards samplePrev |}.
Proof. vm_compute. discriminate. Qed.

(** Its guard is set after the save only: a second call during the load
    starts a second cycle, and after a failed load a call starts again. *)
Remark legacy_two_loads_in_flight (p : Legacy.Package) :
  let st0 := {| Legacy.isInitialized := false; Legacy.packageData := None;
                Legacy.tasks := [] |} in
  Legacy.tasks (Legacy.initializeState (Legacy.initializeState st0 [p]) [p])
  = [Legacy.AwaitGet [p]; Legacy.AwaitGet [p]].
Proof. reflexivity. Qed.

Remark legacy_retry_after_failure (p : Legacy.Package) :
  let st0 := {| Legacy.isInitialized := false; Legacy.packageData := None;
                Legacy.tasks := [] |} in
  Legacy.tasks
    (Legacy.initializeState
       (Legacy.settle (Legacy.initializeState st0 [p]) 0 false) [p])
  = [Legacy.AwaitGet [p]].
Proof. reflexivity. Qed.

(** ** The order of the cards when the names are distinct *)

Section SortOrder.
Context {A : Type} (cmp : A → A → comparison).
Hypothesis cmp_antisym : ∀ a b, cmp a b = CompOpp (cmp b a).
Hypothesis cmp_trans : ∀ a b c, cmp a b = Lt → cmp b c ≠ Gt → cmp a c = Lt.



End SortOrder.


(** The comparison by character codes is such a collation. *)
Lemma ascii_compare_trans (x y z : ascii) :
  Ascii.compare x y = Lt → Ascii.compare y z = Lt → Ascii.compare x z = Lt.
Proof.
  unfold Ascii.compare. rewrite !N.compare_lt_iff. lia.
Qed.

Lemma codeCompare_antisym (a b : string) :
  codeCompare a b = CompOpp (codeCompare b a).
Proof. apply String.compare_antisym. Qed.

Lemma codeCompare_eq (a b : string) : codeCompare a b = Eq → a = b.
Proof. apply String.compare_eq_iff. Qed.

Lemma codeCompare_trans (a b c : string) :
  codeCompare a b = Lt → codeCompare b c ≠ Gt → codeCompare a c = Lt.
Proof.
  unfold codeCompare. revert b c.
  induction a as [|x a IH]; intros [|y b] [|z c]; simpl; try done.
  destruct (Ascii.compare x y) eqn:Hxy; try done.
  - apply Ascii.compare_eq_iff in Hxy as ->.
    destruct (Ascii.compare y z) eqn:Hyz; try done. apply IH.
  - destruct (Ascii.compare y z) eqn:Hyz; try done.
    + apply Ascii.compare_eq_iff in Hyz as ->. by rewrite Hxy.
    + by rewrite (ascii_compare_trans x y z).
Qed.


(** * Further properties of the code *)

(** ** The two regular expressions of [parsePackage] *)

Lemma spanDigits_spec (s ds rest : string) :
  spanDigits s = (ds, rest) →
  s = ds +:+ rest ∧ allDigits ds = true ∧
  match rest with
  | EmptyString => True
  | String c _ => isDigit c = false
  end.
Proof.
  revert ds rest. induction s as [|a s IH]; intros ds rest; simpl.
  - by intros [= <- <-].
  - destruct (isDigit a) eqn:Ha.
    + destruct (spanDigits s) as [d r]. intros [= <- <-].
      destruct (IH d r eq_refl) as (-> & Hd & Hr).
      rewrite append_cons. simpl. by rewrite Ha, Hd.
    + intros [= <- <-]. by rewrite append_nil, Ha.
Qed.

Lemma allDigits_hasChar (c : ascii) (s : string) :
  isDigit c = false → allDigits s = true → hasChar c s = false.
Proof.
  intros Hc. induction s as [|a s IH]; simpl; [done|].
  intros [Ha Hs]%andb_true_iff. case_decide as E; [congruence | by apply IH].
Qed.

Lemma spanDigits_allDigits (s : string) :
  allDigits s = true → spanDigits s = (s, EmptyString).
Proof.
  induction s as [|a s IH]; simpl; [done|].
  intros [Ha Hs]%andb_true_iff. by rewrite Ha, IH.
Qed.

Lemma matchDigitsThen_allDigits (c : ascii) (s : string) :
  allDigits s = true → matchDigitsThen c s = None.
Proof.
  induction s as [|a s IH]; [done|]. intros H.
  cbn [matchDigitsThen]. rewrite (spanDigits_allDigits _ H).
  apply IH. simpl in H. by apply andb_true_iff in H as [_ ?].
Qed.

Lemma spanDigits_app (s t ds r : string) (c' : ascii) :
  spanDigits s = (ds, String c' r) →
  spanDigits (s +:+ t) = (ds, String c' r +:+ t).
Proof.
  revert ds. induction s as [|a s IH]; intros ds; simpl; [done|].
  rewrite append_cons. simpl. destruct (isDigit a) eqn:Ha.
  - destruct (spanDigits s) as [d r'] eqn:Hs. intros [= <- ->].
    by rewrite (IH d eq_refl).
  - intros [= <- <- <-]. reflexivity.
Qed.

(** What is captured is a non-empty run of digits that stands in [s]
    directly before a [c]. *)
Lemma matchDigitsThen_sound (c : ascii) (s d : string) :
  matchDigitsThen c s = Some d →
  d ≠ EmptyString ∧ allDigits d = true ∧
  ∃ pre post, s = pre +:+ d +:+ String c post.
Proof.
  revert d. induction s as [|a s IH]; intros d; [done|].
  cbn [matchDigitsThen].
  destruct (spanDigits (String a s)) as [ds rest] eqn:Hsp.
  assert (Hrec : matchDigitsThen c s = Some d →
    d ≠ EmptyString ∧ allDigits d = true ∧
    ∃ pre post, String a s = pre +:+ d +:+ String c post).
  { intros H. destruct (IH d H) as (Hne & Hd & pre & post & ->).
    split_and!; try done. by exists (String a pre), post. }
  destruct ds as [|d0 ds]; [done|]. destruct rest as [|c' r]; [done|].
  case_decide as Hc; [|done]. intros [= <-]. subst c'.
  destruct (spanDigits_spec _ _ _ Hsp) as (Hs & Hd & _).
  split_and!; try done. exists EmptyString, r. by rewrite append_nil.
Qed.

Lemma matchDigitsThen_occurrence (c a : ascii) (pre post : string) :
  isDigit c = false → isDigit a = true →
  matchDigitsThen c (pre +:+ String a (String c post)) ≠ None.
Proof.
  intros Hc Ha. induction pre as [|b pre IH].
  - rewrite append_nil. cbn [matchDigitsThen]. simpl. rewrite Ha, Hc.
    by rewrite decide_True.
  - rewrite append_cons. cbn [matchDigitsThen].
    destruct (spanDigits _) as [[|d0 ds] [|c' r]]; try done.
    by case_decide.
Qed.

Lemma string_snoc (s : string) :
  s ≠ EmptyString → ∃ init a, s = init +:+ String a EmptyString.
Proof.
  induction s as [|a s IH]; [done|]. intros _. destruct s as [|b s].
  - by exists EmptyString, a.
  - destruct IH as (init & z & E); [done|]. exists (String a init), z.
    by rewrite append_cons, <- E.
Qed.

Lemma allDigits_app (a b : string) :
  allDigits (a +:+ b) = allDigits a && allDigits b.
Proof.
  induction a as [|x a IH]; [done|]. rewrite append_cons. simpl.
  by rewrite IH, andb_assoc.
Qed.

(** For a character [c] that is not a digit, the match fails exactly when no
    digit of [s] is directly followed by [c]. *)
Lemma matchDigitsThen_None_iff (c : ascii) (s : string) :
  isDigit c = false →
  matchDigitsThen c s = None ↔
  ∀ pre a post, isDigit a = true → s ≠ pre +:+ String a (String c post).
Proof.
  intros Hc. split.
  - intros Hnone pre a post Ha ->. by apply (matchDigitsThen_occurrence c a pre post).
  - intros Hno. destruct (matchDigitsThen c s) as [d|] eqn:Hm; [|done]. exfalso.
    destruct (matchDigitsThen_sound c s d Hm) as (Hne & Hd & pre & post & ->).
    destruct (string_snoc d Hne) as (init & a & ->).
    rewrite allDigits_app in Hd. apply andb_true_iff in Hd as [_ Ha].
    simpl in Ha. rewrite andb_true_r in Ha.
    apply (Hno (pre +:+ init) a post Ha).
    by rewrite !append_assoc, append_cons, append_nil.
Qed.

(** Text added after [s] does not change a match found in [s]. *)
Lemma matchDigitsThen_app (c : ascii) (s t d : string) :
  matchDigitsThen c s = Some d → matchDigitsThen c (s +:+ t) = Some d.
Proof.
  revert d. induction s as [|a s IH]; intros d; [done|].
  rewrite append_cons. cbn [matchDigitsThen].
  destruct (spanDigits (String a s)) as [ds rest] eqn:Hsp.
  destruct rest as [|c' r].
  - (* the digits run to the end of [s]: there was no match *)
    destruct (spanDigits_spec _ _ _ Hsp) as (Hs & Hd & _).
    assert (Hall : allDigits (String a s) = true).
    { rewrite Hs. destruct ds; [done|]. by rewrite allDigits_app, Hd. }
    assert (Hn : matchDigitsThen c s = None).
    { apply matchDigitsThen_allDigits. simpl in Hall.
      by apply andb_true_iff in Hall as [_ ?]. }
    destruct ds; by rewrite Hn.
  - change (String a (s +:+ t)) with (String a s +:+ t).
    rewrite (spanDigits_app _ t _ _ _ Hsp), append_cons.
    destruct ds as [|d0 ds]; [apply IH|].
    case_decide; [done | apply IH].
Qed.

(** X1.  The two regular expressions [/(\d+)%/] and [/(\d+)x/]: for a
    character [c] that is not a digit, a match captures a non-empty run of
    digits that stands in the text directly before a [c], and there is no
    match exactly when no digit of the text is directly followed by [c]. *)
Theorem matchDigitsThen_spec (c : ascii) (s : string) :
  isDigit c = false →
  match matchDigitsThen c s with
  | Some d =>
      d ≠ EmptyString ∧ allDigits d = true ∧
      ∃ pre post, s = pre +:+ d +:+ String c post
  | None =>
      ∀ pre a post, isDigit a = true → s ≠ pre +:+ String a (String c post)
  end.
Proof.
  intros Hc. destruct (matchDigitsThen c s) as [d|] eqn:Hm.
  - by apply matchDigitsThen_sound.
  - by apply matchDigitsThen_None_iff.
Qed.

Lemma matchDigitsThen_spec_witness :
  ∃ pre post, "85% of $527.30" = pre +:+ "85" +:+ String "%" post.
Proof.
  pose proof (matchDigitsThen_spec "%" "85% of $527.30" eq_refl) as H.
  change (matchDigitsThen "%" "85% of $527.30") with (Some "85") in H.
  exact (proj2 (proj2 H)).
Defined.

(** ** The cards of a parsed package *)

Section SortFacts.
Context {A : Type} (cmp : A → A → comparison).

Lemma insertSorted_perm (x : A) (l : list A) : insertSorted cmp x l ≡ₚ x :: l.
Proof.
  induction l as [|y l IH]; simpl; [done|].
  destruct (cmp x y); try done. by rewrite IH, Permutation_swap.
Qed.

Lemma sort_perm (l : list A) : sort cmp l ≡ₚ l.
Proof.
  induction l as [|x l IH]; [done|].
  unfold sort in *. simpl. by rewrite insertSorted_perm, IH.
Qed.

Lemma insertSorted_StronglySorted (x : A) (l : list A) :
  (∀ a b, cmp a b = CompOpp (cmp b a)) →
  (∀ a b c, cmp a b ≠ Gt → cmp b c ≠ Gt → cmp a c ≠ Gt) →
  StronglySorted (λ a b, cmp a b ≠ Gt) l →
  StronglySorted (λ a b, cmp a b ≠ Gt) (insertSorted cmp x l).
Proof.
  intros Hanti Htrans. induction 1 as [|y l Hs IH Hy]; simpl.
  - repeat constructor.
  - destruct (cmp x y) eqn:Hxy.
    + constructor; [by constructor|]. constructor; [congruence|].
      eapply Forall_impl; [exact Hy|]. intros z Hz. apply (Htrans x y z); congruence.
    + constructor; [by constructor|]. constructor; [congruence|].
      eapply Forall_impl; [exact Hy|]. intros z Hz. apply (Htrans x y z); congruence.
    + constructor; [done|]. rewrite insertSorted_perm. constructor; [|done].
      rewrite Hanti, Hxy. done.
Qed.

Lemma sort_StronglySorted (l : list A) :
  (∀ a b, cmp a b = CompOpp (cmp b a)) →
  (∀ a b c, cmp a b ≠ Gt → cmp b c ≠ Gt → cmp a c ≠ Gt) →
  StronglySorted (λ a b, cmp a b ≠ Gt) (sort cmp l).
Proof.
  intros Hanti Htrans. induction l as [|x l IH]; [constructor|].
  unfold sort in *. simpl. by apply insertSorted_StronglySorted.
Qed.

Lemma insertSorted_filter_Eq (z x : A) (l : list A) :
  (∀ a b, cmp z a = Eq → cmp z b = Eq → cmp a b = Eq) →
  filter (λ y, cmp z y = Eq) (insertSorted cmp x l) =
  filter (λ y, cmp z y = Eq) (x :: l).
Proof.
  intros HE. induction l as [|y l IH]; simpl; [done|].
  destruct (cmp x y) eqn:Hxy; try done.
  rewrite (filter_cons _ y), IH, !(filter_cons _ x), !(filter_cons _ y).
  destruct (decide (cmp z x = Eq)) as [Hx|Hx]; [|done].
  destruct (decide (cmp z y = Eq)) as [Hy|Hy]; [|done].
  rewrite (HE x y Hx Hy) in Hxy. done.
Qed.

Lemma sort_stable (z : A) (l : list A) :
  (∀ a b, cmp z a = Eq → cmp z b = Eq → cmp a b = Eq) →
  filter (λ y, cmp z y = Eq) (sort cmp l) = filter (λ y, cmp z y = Eq) l.
Proof.
  intros HE. induction l as [|x l IH]; [done|].
  unfold sort in *. simpl. rewrite insertSorted_filter_Eq by done.
  by rewrite !(filter_cons _ x), IH.
Qed.
End SortFacts.

(** The items of a listing that become cards. *)
Lemma parsePackage_cards lc (e : PackageElement) (p : Package) :
  parsePackage lc e = Ok p →
  cards p = sort (λ a b, lc (name a) (name b))
              (parseCard <$> filter (λ li, li_more li = false) (pe_items e)).
Proof.
  unfold parsePackage. destruct (pe_heading e); [|done]. by intros [= <-].
Qed.

Lemma parsePackage_card_from_item lc (e : PackageElement) (p : Package) (card : Card) :
  parsePackage lc e = Ok p → card ∈ cards p →
  ∃ li, li ∈ pe_items e ∧ li_more li = false ∧
        card = parseCard li ∧ element card = Some li.
Proof.
  intros Hp Hc. rewrite (parsePackage_cards lc e p Hp), sort_perm in Hc.
  apply list_elem_of_fmap in Hc as (li & -> & Hli).
  apply list_elem_of_filter in Hli as [Hm Hin]. by exists li.
Qed.

(** X2.  The cards of a parsed package are the items of the listing that are
    not [more] placeholders, each exactly once: the sort loses and repeats
    nothing, and every card refers to the item it was read from. *)
Theorem parsePackage_cards_Permutation lc (e : PackageElement) (p : Package) :
  parsePackage lc e = Ok p →
  cards p ≡ₚ parseCard <$> filter (λ li, li_more li = false) (pe_items e) ∧
  length (cards p) = length (filter (λ li, li_more li = false) (pe_items e)) ∧
  ∀ card, card ∈ cards p →
    ∃ li, li ∈ pe_items e ∧ li_more li = false ∧
          card = parseCard li ∧ element card = Some li.
Proof.
  intros Hp. rewrite (parsePackage_cards lc e p Hp).
  pose proof (sort_perm (λ a b, lc (name a) (name b))
    (parseCard <$> filter (λ li, li_more li = false) (pe_items e))) as Hperm.
  split_and!; [done | by rewrite Hperm, length_fmap |].
  intros card Hc. rewrite Hperm in Hc.
  apply list_elem_of_fmap in Hc as (li & -> & Hli).
  apply list_elem_of_filter in Hli as [Hm Hin]. by exists li.
Qed.

Lemma parsePackage_cards_Permutation_witness :
  length (cards
    {| username := "bob"; total := "$18"; efficiencyText := "80% of $22";
       efficiencyPercentage := "80";
       cards := [parseCard liFooNM; parseCard liFooLP];
       pkg_element := Some sameNameA |}) = 2.
Proof.
  refine (proj1 (proj2 (parsePackage_cards_Permutation codeCompare sameNameA _ _))).
  reflexivity.
Defined.

(** X3.  For a collation that is a total preorder, the cards of a parsed
    package are in ascending order of their names: no card is followed,
    directly or later, by a card whose name the collation puts before
    it. *)
Theorem parsePackage_cards_sorted lc (e : PackageElement) (p : Package) :
  (∀ a b, lc a b = CompOpp (lc b a)) →
  (∀ a b c, lc a b ≠ Gt → lc b c ≠ Gt → lc a c ≠ Gt) →
  parsePackage lc e = Ok p →
  StronglySorted (λ a b, lc (name a) (name b) ≠ Gt) (cards p).
Proof.
  intros Hanti Htrans Hp. rewrite (parsePackage_cards lc e p Hp).
  apply (sort_StronglySorted (λ a b, lc (name a) (name b))).
  - intros a b. apply Hanti.
  - intros a b c. apply Htrans.
Qed.

Lemma codeCompare_le_trans (a b c : string) :
  codeCompare a b ≠ Gt → codeCompare b c ≠ Gt → codeCompare a c ≠ Gt.
Proof.
  intros Hab Hbc. destruct (codeCompare a b) eqn:E; [| |done].
  - apply codeCompare_eq in E as ->. done.
  - by rewrite (codeCompare_trans a b c).
Qed.

Lemma parsePackage_cards_sorted_witness :
  StronglySorted (λ a b, codeCompare (name a) (name b) ≠ Gt)
    [parseCard barLi; parseCard sampleLi].
Proof.
  apply (parsePackage_cards_sorted codeCompare
    {| pe_heading := Some bobHeading; pe_items := [sampleLi; barLi] |}
    {| username := "bob"; total := "$18"; efficiencyText := "80% of $22";
       efficiencyPercentage := "80";
       cards := [parseCard barLi; parseCard sampleLi];
       pkg_element :=
         Some {| pe_heading := Some bobHeading; pe_items := [sampleLi; barLi] |} |}).
  - apply codeCompare_antisym.
  - apply codeCompare_le_trans.
  - reflexivity.
Defined.

(** X4.  The sort is stable: the cards whose names the collation does not
    tell apart from a given name stand in the parsed package in the order of
    the markup. *)
Theorem parsePackage_cards_stable lc (e : PackageElement) (p : Package) (n : string) :
  (∀ a b, lc n a = Eq → lc n b = Eq → lc a b = Eq) →
  parsePackage lc e = Ok p →
  filter (λ card, lc n (name card) = Eq) (cards p) =
  filter (λ card, lc n (name card) = Eq)
    (parseCard <$> filter (λ li, li_more li = false) (pe_items e)).
Proof.
  intros HE Hp. rewrite (parsePackage_cards lc e p Hp).
  apply (sort_stable (λ a b, lc (name a) (name b))
           {| name := n; condition := EmptyString; price := EmptyString;
              quantity := EmptyString; element := None |}).
  intros a b. apply HE.
Qed.

Lemma parsePackage_cards_stable_witness :
  filter (λ card, codeCompare "Foo" (name card) = Eq)
    [parseCard liFooLP; parseCard liFooNM] =
  filter (λ card, codeCompare "Foo" (name card) = Eq)
    (parseCard <$> filter (λ li, li_more li = false) (pe_items sameNameB)).
Proof.
  apply (parsePackage_cards_stable codeCompare sameNameB
    {| username := "bob"; total := "$18"; efficiencyText := "80% of $22";
       efficiencyPercentage := "80";
       cards := [parseCard liFooLP; parseCard liFooNM];
       pkg_element := Some sameNameB |} "Foo").
  - intros a b Ha%codeCompare_eq Hb%codeCompare_eq. subst. apply codeCompare_refl.
  - reflexivity.
Defined.

Lemma parseCard_quantity (li : LiElement) :
  quantity (parseCard li) ≠ EmptyString ∧ allDigits (quantity (parseCard li)) = true.
Proof.
  unfold parseCard. simpl.
  destruct (matchDigitsThen "x" (li_textContent li)) as [d|] eqn:Hm; [|done].
  destruct (matchDigitsThen_sound _ _ _ Hm) as (Hne & Hd & _).
  by destruct d.
Qed.

(** X6.  In a parsed package the efficiency percentage consists of digits
    (or is empty) and the quantity of every card is a non-empty string of
    digits; so neither contains one of the separators of the keys. *)
Theorem parsePackage_digit_fields lc (e : PackageElement) (p : Package) :
  parsePackage lc e = Ok p →
  allDigits (efficiencyPercentage p) = true ∧
  hasChar "-" (efficiencyPercentage p) = false ∧
  Forall (λ card, quantity card ≠ EmptyString ∧
                  allDigits (quantity card) = true ∧
                  hasChar "x" (quantity card) = false ∧
                  hasChar "|" (quantity card) = false ∧
                  hasChar " " (quantity card) = false) (cards p).
Proof.
  intros Hp.
  assert (Hpct : allDigits (efficiencyPercentage p) = true).
  { revert Hp. unfold parsePackage. destruct (pe_heading e) as [h|]; [|done].
    intros [= <-]. simpl.
    destruct (matchDigitsThen "%" (orElse (h_efficiency h) EmptyString)) as [d|] eqn:Hm;
      [|done].
    by destruct (matchDigitsThen_sound _ _ _ Hm) as (_ & Hd & _). }
  split_and!; [done | by apply allDigits_hasChar |].
  apply Forall_forall. intros card Hc.
  destruct (parsePackage_card_from_item lc e p card Hp Hc) as (li & _ & _ & -> & _).
  destruct (parseCard_quantity li) as [Hne Hd].
  split_and!; try done; by apply allDigits_hasChar.
Qed.

Lemma parsePackage_digit_fields_witness :
  allDigits "70" = true ∧ hasChar "-" "70" = false.
Proof.
  destruct (parsePackage_digit_fields codeCompare sampleElement
    {| username := "alice"; total := "$10"; efficiencyText := "70% of $100";
       efficiencyPercentage := "70"; cards := [parseCard sampleLi];
       pkg_element := Some sampleElement |} eq_refl) as (H1 & H2 & _).
  exact (conj H1 H2).
Defined.

(** ** What the percentage key and the full key tell apart *)

Lemma getPackageKeyWithPercentage_inj (a b : Package) :
  hasChar "-" (efficiencyPercentage a) = false →
  hasChar "-" (efficiencyPercentage b) = false →
  getPackageKeyWithPercentage a = getPackageKeyWithPercentage b →
  getBasePackageKey a = getBasePackageKey b ∧
  efficiencyPercentage a = efficiencyPercentage b.
Proof.
  intros Ha Hb. unfold getPackageKeyWithPercentage.
  rewrite !append_cons, !append_nil. by apply split_last.
Qed.

(** X7.  When a previous package is found for a current one and neither
    percentage contains [-] (as for parsed packages, whose percentages are
    digits), the package is marked [package-offer-changed] exactly when the
    two efficiency percentages differ. *)
Theorem offer_changed_iff_percentage (prev : list Package) (ctr : Counters)
    (el : PackageElement) (c : Package) (pd : PrevData) :
  prevBasePackageMap prev !! getBasePackageKey c = Some pd →
  hasChar "-" (efficiencyPercentage (pkg pd)) = false →
  hasChar "-" (efficiencyPercentage c) = false →
  efficiencyPercentage (pkg pd) ≠ efficiencyPercentage c ↔
  (analyzePackage (prevBasePackageMap prev) ctr el c).2 =
    [ClassListAdd el "package-offer-changed";
     DisplayOldPackageTotal el (total (pkg pd)) (efficiencyText (pkg pd))].
Proof.
  intros Hlook Hp Hc.
  destruct (prevBasePackageMap_lookup _ _ _ Hlook) as (_ & Hbase & Hpk & _).
  unfold analyzePackage. rewrite Hlook. cbn [percentageKey]. rewrite Hpk.
  destruct (decide (getPackageKeyWithPercentage (pkg pd) ≠
                    getPackageKeyWithPercentage c)) as [Hne|Heq].
  - split; [done|]. intros _ E. apply Hne.
    unfold getPackageKeyWithPercentage. by rewrite Hbase, E.
  - apply dec_stable in Heq.
    apply getPackageKeyWithPercentage_inj in Heq as [_ Heq]; try done.
    split; [done|]. by case_decide.
Qed.

Lemma offer_changed_iff_percentage_witness :
  efficiencyPercentage samplePrev ≠ efficiencyPercentage sampleOffer ↔
  (analyzePackage (prevBasePackageMap [samplePrev]) zeroCounters sampleElement
     sampleOffer).2 =
    [ClassListAdd sampleElement "package-offer-changed";
     DisplayOldPackageTotal sampleElement "$10" "70% of $100"].
Proof.
  apply (offer_changed_iff_percentage [samplePrev] zeroCounters sampleElement
    sampleOffer
    {| percentageKey := getPackageKeyWithPercentage samplePrev;
       fullKey := getFullPackageKey samplePrev; pkg := samplePrev |}).
  - vm_compute. reflexivity.
  - reflexivity.
  - reflexivity.
Defined.

Lemma fullCardKey_unfold (card : Card) :
  fullCardKey card =
  quantity card +:+
    String "x" (String " "
      ((name card +:+ String " " (condition card)) +:+ String " " (price card))).
Proof.
  unfold fullCardKey. rewrite (append_assoc (name card)).
  by rewrite !append_cons, !append_nil.
Qed.

Lemma fullCardKey_nonempty (card : Card) : fullCardKey card ≠ EmptyString.
Proof.
  rewrite fullCardKey_unfold. destruct (quantity card); [done|].
  by rewrite append_cons.
Qed.

Lemma fullCardKey_no_pipe (card : Card) :
  cardPriceDelimiterFree card → hasChar "|" (fullCardKey card) = false.
Proof.
  intros ((_ & Hq & Hn & Hc & _) & Hp & _).
  rewrite fullCardKey_unfold, hasChar_app. simpl.
  rewrite !hasChar_app. simpl. by rewrite Hq, Hn, Hc, Hp.
Qed.

Lemma fullCardKey_inj (a b : Card) :
  cardPriceDelimiterFree a → cardPriceDelimiterFree b →
  fullCardKey a = fullCardKey b → fullComponents a = fullComponents b.
Proof.
  intros ((Hqa & _ & _ & _ & Hca) & _ & Hpa) ((Hqb & _ & _ & _ & Hcb) & _ & Hpb).
  rewrite !fullCardKey_unfold. intros E.
  destruct (split_first _ _ _ _ _ Hqa Hqb E) as [Eq [= E']].
  destruct (split_last _ _ _ _ _ Hpa Hpb E') as [E'' Ep].
  destruct (split_last _ _ _ _ _ Hca Hcb E'') as [En Ec].
  unfold fullComponents. by rewrite Eq, En, Ec, Ep.
Qed.

Lemma fullCardKeys_inj (l l' : list Card) :
  Forall cardPriceDelimiterFree l → Forall cardPriceDelimiterFree l' →
  fullCardKey <$> l = fullCardKey <$> l' →
  fullComponents <$> l = fullComponents <$> l'.
Proof.
  intros Hl. revert l'. induction Hl as [|a l Ha Hl IH]; intros l' Hl' E.
  - by destruct l'.
  - destruct Hl' as [|b l' Hb Hl']; [done|]. simpl in *.
    injection E as E1 E2. f_equal; [by apply fullCardKey_inj | by apply IH].
Qed.

Lemma getFullPackageKey_inj (a b : Package) :
  fullDelimiterFree a → fullDelimiterFree b →
  getFullPackageKey a = getFullPackageKey b →
  username a = username b ∧ total a = total b ∧
  efficiencyPercentage a = efficiencyPercentage b ∧
  fullComponents <$> cards a = fullComponents <$> cards b.
Proof.
  intros (Hua & Hta & Hpa & Hca) (Hub & Htb & Hpb & Hcb).
  unfold getFullPackageKey. cbn zeta.
  change (λ card : Card, quantity card +:+ "x " +:+ name card +:+ " "
            +:+ condition card +:+ " " +:+ price card) with fullCardKey.
  rewrite !append_cons, !append_nil. intros E.
  destruct (split_first _ _ _ _ _ Hua Hub E) as [Eu E1].
  destruct (split_first _ _ _ _ _ Hta Htb E1) as [Et E2].
  destruct (split_first _ _ _ _ _ Hpa Hpb E2) as [Ep Ej].
  split_and!; try done.
  apply fullCardKeys_inj; try done. apply (join_inj "|"); try done.
  - apply Forall_fmap. eapply Forall_impl; [exact Hca|]. simpl.
    intros c Hc. split; [by apply fullCardKey_no_pipe | apply fullCardKey_nonempty].
  - apply Forall_fmap. eapply Forall_impl; [exact Hcb|]. simpl.
    intros c Hc. split; [by apply fullCardKey_no_pipe | apply fullCardKey_nonempty].
Qed.

(** X8.  A package that is found and left unmarked has not changed in what
    the full key holds: when the previous and the current package keep clear
    of the separators, no effect at all means the same seller, total,
    percentage, and the same quantity, name, condition and price card by
    card. *)
Theorem unmarked_means_equal (prev : list Package) (ctr : Counters)
    (el : PackageElement) (c : Package) (pd : PrevData) :
  prevBasePackageMap prev !! getBasePackageKey c = Some pd →
  fullDelimiterFree (pkg pd) → fullDelimiterFree c →
  (analyzePackage (prevBasePackageMap prev) ctr el c).2 = [] →
  username (pkg pd) = username c ∧ total (pkg pd) = total c ∧
  efficiencyPercentage (pkg pd) = efficiencyPercentage c ∧
  fullComponents <$> cards (pkg pd) = fullComponents <$> cards c.
Proof.
  intros Hlook Hp Hc.
  destruct (prevBasePackageMap_lookup _ _ _ Hlook) as (_ & _ & _ & Hfk).
  unfold analyzePackage. rewrite Hlook. cbn [fullKey]. rewrite Hfk.
  case_decide; [done|].
  destruct (decide (getFullPackageKey (pkg pd) ≠ getFullPackageKey c)) as [|Heq];
    [done|].
  intros _. apply dec_stable in Heq. by apply getFullPackageKey_inj.
Qed.

Lemma unmarked_means_equal_witness :
  username samplePrev = username samplePrev ∧ total samplePrev = total samplePrev ∧
  efficiencyPercentage samplePrev = efficiencyPercentage samplePrev ∧
  fullComponents <$> cards samplePrev = fullComponents <$> cards samplePrev.
Proof.
  apply (unmarked_means_equal [samplePrev] zeroCounters sampleElement samplePrev
    {| percentageKey := getPackageKeyWithPercentage samplePrev;
       fullKey := getFullPackageKey samplePrev; pkg := samplePrev |}).
  - vm_compute. reflexivity.
  - split_and!; try reflexivity. repeat constructor.
  - split_and!; try reflexivity. repeat constructor.
  - vm_compute. reflexivity.
Defined.

(** ** The counters and the marks of the loop *)

Lemma countClass_app cls (a b : list DomEffect) :
  countClass cls (a ++ b) = countClass cls a + countClass cls b.
Proof. unfold countClass. by rewrite filter_app, length_app. Qed.

Lemma countClass_oldPriceEffects cls m (l : list Card) :
  countClass cls (oldPriceEffects m l) = 0.
Proof.
  unfold oldPriceEffects. induction l as [|c l IH]; [done|]. simpl.
  destruct (oldPriceOf m c); simpl; [|done].
  unfold countClass in *. by rewrite filter_cons_False by done.
Qed.

Lemma countClass_ClassListAdd cls el c (l : list DomEffect) :
  countClass cls (ClassListAdd el c :: l) =
  (if bool_decide (c = cls) then 1 else 0) + countClass cls l.
Proof.
  unfold countClass. rewrite filter_cons. simpl.
  destruct (bool_decide (c = cls)); by case_decide.
Qed.

Lemma countClass_DisplayOldPackageTotal cls el t e (l : list DomEffect) :
  countClass cls (DisplayOldPackageTotal el t e :: l) = countClass cls l.
Proof. unfold countClass. by rewrite filter_cons_False by done. Qed.

Lemma analyzePackage_counts prevMap ctr el c :
  let r := analyzePackage prevMap ctr el c in
  newCount r.1 = newCount ctr + countClass "package-new" r.2 ∧
  offerChangedCount r.1 = offerChangedCount ctr + countClass "package-offer-changed" r.2 ∧
  priceChangedCount r.1 = priceChangedCount ctr + countClass "package-price-changed" r.2 ∧
  countClass "package-new" r.2 + countClass "package-offer-changed" r.2
    + countClass "package-price-changed" r.2 ≤ 1.
Proof.
  assert (H0 : ∀ cls, countClass cls [] = 0) by done.
  unfold analyzePackage. destruct (prevMap !! getBasePackageKey c) as [pd|].
  - destruct (decide (percentageKey pd ≠ getPackageKeyWithPercentage c));
      [|destruct (decide (fullKey pd ≠ getFullPackageKey c))];
      cbn [fst snd newCount offerChangedCount priceChangedCount];
      rewrite ?countClass_ClassListAdd, ?countClass_DisplayOldPackageTotal,
        ?countClass_oldPriceEffects, ?H0; simpl; lia.
  - cbn [fst snd newCount offerChangedCount priceChangedCount].
    rewrite ?countClass_ClassListAdd, ?H0. simpl. lia.
Qed.

Lemma analyzeFold_counts prevMap acc (l : list (PackageElement * Package)) :
  let r := analyzeFold prevMap acc l in
  ∃ effs, r.2 = acc.2 ++ effs ∧
    newCount r.1 = newCount acc.1 + countClass "package-new" effs ∧
    offerChangedCount r.1 =
      offerChangedCount acc.1 + countClass "package-offer-changed" effs ∧
    priceChangedCount r.1 =
      priceChangedCount acc.1 + countClass "package-price-changed" effs ∧
    countClass "package-new" effs + countClass "package-offer-changed" effs
      + countClass "package-price-changed" effs ≤ length l.
Proof.
  revert acc. induction l as [|[el c] l IH]; intros acc.
  - exists []. simpl. rewrite app_nil_r. split_and!; try done; vm_compute; lia.
  - rewrite analyzeFold_cons.
    destruct (IH ((analyzePackage prevMap acc.1 el c).1,
                  acc.2 ++ (analyzePackage prevMap acc.1 el c).2))
      as (effs & Heff & Hn & Ho & Hp & Hle).
    destruct (analyzePackage_counts prevMap acc.1 el c) as (Hn1 & Ho1 & Hp1 & Hle1).
    exists ((analyzePackage prevMap acc.1 el c).2 ++ effs).
    cbn [fst snd] in *. rewrite !countClass_app. simpl length.
    split_and!; [by rewrite Heff, app_assoc | lia..].
Qed.

(** X9.  After the loop each counter is the number of packages that were
    given the corresponding class, and the three counters together do not
    exceed the number of packages on the page: a package gets at most one
    class. *)
Theorem counters_match_marks (prev : list Package)
    (packages : list PackageElement) (currentPackages : list Package) :
  let r := analyzePackages prev packages currentPackages in
  newCount r.1 = countClass "package-new" r.2 ∧
  offerChangedCount r.1 = countClass "package-offer-changed" r.2 ∧
  priceChangedCount r.1 = countClass "package-price-changed" r.2 ∧
  newCount r.1 + offerChangedCount r.1 + priceChangedCount r.1 ≤ length packages.
Proof.
  intros r. unfold r. rewrite analyzePackages_fold.
  destruct (analyzeFold_counts (prevBasePackageMap prev) (zeroCounters, [])
              (zip packages currentPackages)) as (effs & Heff & Hn & Ho & Hp & Hle).
  cbn [fst snd zeroCounters newCount offerChangedCount priceChangedCount] in *.
  rewrite Heff. simpl. rewrite length_zip_with in Hle. lia.
Qed.

(** ** Where the displayed values come from *)

Lemma analyzePackage_effectFrom prev packages cur ctr el c :
  el ∈ packages → c ∈ cur →
  Forall (effectFrom prev packages cur)
    (analyzePackage (prevBasePackageMap prev) ctr el c).2.
Proof.
  intros Hel Hc. unfold analyzePackage.
  destruct (prevBasePackageMap prev !! getBasePackageKey c) as [pd|] eqn:Hlook.
  - destruct (prevBasePackageMap_lookup _ _ _ Hlook) as (Hin & _).
    assert (Hclass : ∀ cls, cls ∈ ["package-offer-changed"; "package-price-changed"] →
      cls ∈ ["package-new"; "package-offer-changed"; "package-price-changed"]).
    { intros cls H. by apply elem_of_cons; right. }
    case_decide; [|case_decide]; cbn [snd].
    + constructor; [split; [done | apply Hclass; by left]|].
      constructor; [split; [done | by exists (pkg pd)]|]. constructor.
    + constructor; [split; [done | apply Hclass; right; by left]|].
      constructor; [split; [done | by exists (pkg pd)]|].
      apply Forall_forall. intros e He. unfold oldPriceEffects in He.
      apply list_elem_of_omap in He as (card & Hcard & Hf).
      unfold oldPriceOf in Hf.
      destruct (prevCardMap (cards (pkg pd)) !! cardKey card) as [pc|] eqn:Hm; [|done].
      apply prevCardMap_lookup in Hm as [Hpc _].
      case_decide as Hd; [|done]. injection Hf as <-. cbn.
      split_and!; [done | exists c, card; by eauto | by exists (pkg pd), pc].
    + constructor.
  - cbn [snd]. constructor; [split; [done | by left]|]. constructor.
Qed.

Lemma analyzeFold_effectFrom prev packages cur acc
    (l : list (PackageElement * Package)) :
  (∀ x, x ∈ l → x.1 ∈ packages ∧ x.2 ∈ cur) →
  Forall (effectFrom prev packages cur) acc.2 →
  Forall (effectFrom prev packages cur)
    (analyzeFold (prevBasePackageMap prev) acc l).2.
Proof.
  revert acc. induction l as [|[el c] l IH]; intros acc Hl Hacc; [done|].
  rewrite analyzeFold_cons. apply IH.
  - intros x Hx. apply Hl. by apply elem_of_cons; right.
  - cbn [snd]. apply Forall_app. split; [done|].
    destruct (Hl (el, c)) as [? ?]; [by apply elem_of_cons; left|].
    by apply analyzePackage_effectFrom.
Qed.

(** X10.  Whatever the loop does to the page comes from the page and the
    store: a class is one of the three and goes to a package of the page; a
    displayed old total and efficiency text are those of one stored package;
    a displayed old price is the price of a card of a stored package, goes to
    the item of a current card with a different price, and comes with an
    empty efficiency text. *)
Theorem effects_come_from_store (prev : list Package)
    (packages : list PackageElement) (currentPackages : list Package) :
  Forall (effectFrom prev packages currentPackages)
    (analyzePackages prev packages currentPackages).2.
Proof.
  rewrite analyzePackages_fold. apply analyzeFold_effectFrom; [|constructor].
  intros [el c] Hx. split; [by eapply elem_of_zip_l | by eapply elem_of_zip_r].
Qed.

(** ** The stored packages as a lookup map *)

Lemma prevDataOf_eta (prev : list Package) (k : string) (pd : PrevData) :
  prevBasePackageMap prev !! k = Some pd → pd = prevDataOf (pkg pd).
Proof.
  intros H. destruct (prevBasePackageMap_lookup _ _ _ H) as (_ & _ & Hp & Hf).
  destruct pd as [pk fk p]. simpl in *. unfold prevDataOf. by rewrite Hp, Hf.
Qed.

(** X12.  When several stored packages have the same base key, the map holds
    the last of them in stored order: the earlier ones are never compared
    with. *)
Theorem prevBasePackageMap_last_wins (l1 l2 : list Package) (p : Package) :
  (∀ q, q ∈ l2 → getBasePackageKey q ≠ getBasePackageKey p) →
  prevBasePackageMap (l1 ++ p :: l2) !! getBasePackageKey p = Some (prevDataOf p).
Proof.
  induction l2 as [|q l2 IH] using rev_ind; intros H.
  - rewrite prevBasePackageMap_snoc. apply lookup_insert_eq.
  - change (l1 ++ p :: l2 ++ [q]) with (l1 ++ (p :: l2) ++ [q]).
    rewrite app_assoc, prevBasePackageMap_snoc, lookup_insert_ne.
    + apply IH. intros q' Hq'. apply H, elem_of_app. by left.
    + apply H, elem_of_app. right. by apply list_elem_of_singleton.
Qed.

Lemma prevBasePackageMap_last_wins_witness :
  prevBasePackageMap ([samplePrev] ++ sampleOffer :: [sampleCarol])
    !! getBasePackageKey sampleOffer = Some (prevDataOf sampleOffer).
Proof.
  apply (prevBasePackageMap_last_wins [samplePrev] [sampleCarol] sampleOffer).
  intros q Hq%list_elem_of_singleton. subst q. vm_compute. discriminate.
Defined.

(** X13.  With distinct base keys the order of the stored packages does not
    matter: a permutation of them gives the same map, and so the same
    counters and effects for every page. *)
Theorem analyzePackages_stored_order (prev prev' : list Package)
    (packages : list PackageElement) (currentPackages : list Package) :
  prev ≡ₚ prev' → NoDup (getBasePackageKey <$> prev) →
  prevBasePackageMap prev' = prevBasePackageMap prev ∧
  analyzePackages prev' packages currentPackages =
  analyzePackages prev packages currentPackages.
Proof.
  intros Hperm Hnd.
  assert (Hnd' : NoDup (getBasePackageKey <$> prev')) by (by rewrite <- Hperm).
  assert (Hmap : prevBasePackageMap prev' = prevBasePackageMap prev).
  { apply map_eq. intros k.
    destruct (prevBasePackageMap prev !! k) as [pd|] eqn:Hk.
    - destruct (prevBasePackageMap_lookup _ _ _ Hk) as (Hin & <- & _).
      rewrite (prevDataOf_eta _ _ _ Hk).
      apply prevBasePackageMap_lookup_NoDup; [done | by rewrite <- Hperm].
    - apply prevBasePackageMap_lookup_None. intros p Hp.
      rewrite <- Hperm in Hp. revert p Hp. by apply prevBasePackageMap_lookup_None. }
  split; [done|]. unfold analyzePackages. by rewrite Hmap.
Qed.

Lemma analyzePackages_stored_order_witness :
  analyzePackages [sampleCarol; samplePrev] [sampleElement] [sampleOffer] =
  analyzePackages [samplePrev; sampleCarol] [sampleElement] [sampleOffer].
Proof.
  apply (analyzePackages_stored_order [samplePrev; sampleCarol]
           [sampleCarol; samplePrev]).
  - apply Permutation_swap.
  - vm_compute. repeat constructor; rewrite ?elem_of_cons, ?elem_of_nil;
      intros H; repeat destruct H as [H|H]; discriminate || done.
Defined.

(** ** What is stored *)

Lemma prevBasePackageMap_strip (prev : list Package) :
  prevBasePackageMap (packagesToStore prev) =
  (λ pd, {| percentageKey := percentageKey pd; fullKey := fullKey pd;
            pkg := stripPackage (pkg pd) |}) <$> prevBasePackageMap prev.
Proof.
  unfold packagesToStore. induction prev as [|p prev IH] using rev_ind.
  - by rewrite prevBasePackageMap_nil, fmap_empty.
  - rewrite fmap_app. simpl. rewrite !prevBasePackageMap_snoc, fmap_insert, IH.
    destruct (stripPackage_keys p) as (-> & -> & ->). done.
Qed.

Lemma prevCardMap_strip (l : list Card) :
  prevCardMap (stripCard <$> l) = stripCard <$> prevCardMap l.
Proof.
  induction l as [|c l IH] using rev_ind.
  - by rewrite prevCardMap_nil, fmap_empty.
  - rewrite fmap_app. simpl. by rewrite !prevCardMap_snoc, fmap_insert, IH.
Qed.

Lemma oldPriceEffects_strip (l cur : list Card) :
  oldPriceEffects (prevCardMap (stripCard <$> l)) cur =
  oldPriceEffects (prevCardMap l) cur.
Proof.
  assert (E : ∀ c, oldPriceOf (prevCardMap (stripCard <$> l)) c =
                   oldPriceOf (prevCardMap l) c).
  { intros c. unfold oldPriceOf. rewrite prevCardMap_strip, lookup_fmap.
    by destruct (prevCardMap l !! cardKey c). }
  unfold oldPriceEffects.
  induction cur as [|c cur IH]; [done|]. simpl. rewrite (E c).
  destruct (oldPriceOf (prevCardMap l) c); simpl; [f_equal|]; apply IH.
Qed.

Lemma analyzePackage_strip (prev : list Package) ctr el c :
  analyzePackage (prevBasePackageMap (packagesToStore prev)) ctr el c =
  analyzePackage (prevBasePackageMap prev) ctr el c.
Proof.
  unfold analyzePackage. rewrite prevBasePackageMap_strip, lookup_fmap.
  destruct (prevBasePackageMap prev !! getBasePackageKey c) as [pd|]; [|done].
  cbn [fmap option_fmap option_map percentageKey fullKey pkg stripPackage
       total efficiencyText cards].
  by rewrite oldPriceEffects_strip.
Qed.

(** X14.  What is stored holds no reference to the markup, neither at a
    package nor at a card; storing is idempotent; and comparing a page with
    the stored copies gives the same counters and effects as comparing it
    with the packages they were made from. *)
Theorem packagesToStore_plain (l : list Package) :
  Forall (λ p, pkg_element p = None ∧
               Forall (λ card, element card = None) (cards p))
         (packagesToStore l) ∧
  packagesToStore (packagesToStore l) = packagesToStore l ∧
  ∀ packages currentPackages,
    analyzePackages (packagesToStore l) packages currentPackages =
    analyzePackages l packages currentPackages.
Proof.
  split_and!.
  - unfold packagesToStore. apply Forall_fmap, Forall_forall. intros p _. simpl.
    split; [done|]. by apply Forall_fmap, Forall_forall.
  - unfold packagesToStore. rewrite <- list_fmap_compose. apply list_fmap_ext.
    intros _ p _. unfold stripPackage. simpl. f_equal.
    rewrite <- list_fmap_compose. by apply list_fmap_ext.
  - intros packages cur. rewrite !analyzePackages_fold.
    generalize (zeroCounters, @nil DomEffect).
    induction (zip packages cur) as [|[el c] z IH]; intros acc; [done|].
    by rewrite !analyzeFold_cons, analyzePackage_strip, IH.
Qed.

(** ** The controller between two loads of the page *)

Lemma step_Trigger_blocked lc st packages :
  isInitialized st = true ∨ isInitializing st = true →
  step lc st (Trigger packages) = st.
Proof.
  intros H. simpl. unfold beginInitialization.
  destruct H as [-> | ->]; [done | by rewrite orb_true_r].
Qed.

Lemma step_Trigger_empty lc st :
  isInitialized st = false → isInitializing st = false →
  step lc st (Trigger []) =
  {| isInitialized := false; isInitializing := true;
     counters := counters st; packageData := packageData st;
     annotations := annotations st; tasks := tasks st ++ [AwaitReturn];
     uncaught := uncaught st |}.
Proof.
  intros Hi Hing. unfold step, beginInitialization. rewrite Hi, Hing. cbn [orb].
  unfold beginCycle.
  cbn [isInitialized isInitializing counters packageData annotations tasks uncaught].
  by rewrite Hi.
Qed.

Lemma step_Trigger_throw lc st packages e :
  isInitialized st = false → isInitializing st = false →
  mapJs (parsePackage lc) packages = Throw e →
  step lc st (Trigger packages) =
  {| isInitialized := false; isInitializing := true;
     counters := zeroCounters; packageData := packageData st;
     annotations := annotations st; tasks := tasks st;
     uncaught := S (uncaught st) |}.
Proof.
  intros Hi Hing Hparse. unfold step, beginInitialization.
  rewrite Hi, Hing. cbn [orb]. unfold beginCycle.
  cbn [isInitialized isInitializing counters packageData annotations tasks uncaught].
  rewrite Hi. destruct packages as [|x packages]; [done|]. by rewrite Hparse.
Qed.

Lemma step_Settle_fail lc st t :
  tasks st = [t] → t ≠ AwaitReturn →
  step lc st (Settle 0 false) =
  {| isInitialized := isInitialized st; isInitializing := isInitializing st;
     counters := counters st; packageData := packageData st;
     annotations := annotations st; tasks := [];
     uncaught := S (uncaught st) |}.
Proof.
  intros Ht Hne. unfold step. rewrite Ht.
  change ([t] !! 0) with (Some t). unfold resume. rewrite Ht.
  by destruct t.
Qed.

Lemma step_Settle_absent lc st i fulfilled :
  tasks st !! i = None → step lc st (Settle i fulfilled) = st.
Proof. intros H. unfold step. by rewrite H. Qed.

Lemma phase_step lc stored st ev :
  cycleEvent ev → phase lc stored st → phase lc stored (step lc st ev).
Proof.
  intros Hev Hph. destruct ev as [pk' | i b | | |]; try done; clear Hev.
  - (* a call of beginInitialization *)
    destruct Hph as [Hi Hing Ht Ha Hd | Hi Hing Ht Ha Hd
      | pk cur Hp Hi Hing Ht Ha Hd | Hi Hing Ht Ha Hd
      | pk cur Hp Hi Hing Ht Ha Hc Hd | pk cur Hp Hi Hing Ht Ha Hc Hd
      | pk cur Hp Hi Hing Ht Ha Hc Hd | pk cur Hp Hi Hing Ht Ha Hc Hd].
    2-8: rewrite step_Trigger_blocked by auto.
    + destruct pk' as [|x pk'].
      * rewrite step_Trigger_empty by done.
        apply phase_returning; cbn; by rewrite ?Ht.
      * destruct (mapJs (parsePackage lc) (x :: pk')) as [cur|e] eqn:Hp.
        -- rewrite (step_Trigger_idle lc st (x :: pk') cur) by done.
           apply (phase_loading _ _ _ (x :: pk') cur); cbn; by rewrite ?Ht.
        -- rewrite (step_Trigger_throw lc st (x :: pk') e) by done.
           apply phase_failed_early; cbn; by rewrite ?Ht.
    + by apply phase_returning.
    + by eapply phase_loading.
    + by apply phase_failed_early.
    + by eapply phase_saving.
    + by eapply phase_failed_late.
    + by eapply phase_saved.
    + by eapply phase_done.
  - (* a promise settles *)
    destruct Hph as [Hi Hing Ht Ha Hd | Hi Hing Ht Ha Hd
      | pk cur Hp Hi Hing Ht Ha Hd | Hi Hing Ht Ha Hd
      | pk cur Hp Hi Hing Ht Ha Hc Hd | pk cur Hp Hi Hing Ht Ha Hc Hd
      | pk cur Hp Hi Hing Ht Ha Hc Hd | pk cur Hp Hi Hing Ht Ha Hc Hd].
    + rewrite step_Settle_absent by (by rewrite Ht). by apply phase_idle.
    + destruct i as [|i].
      * rewrite (step_Settle_return lc st b) by done. by apply phase_idle.
      * rewrite step_Settle_absent by (by rewrite Ht). by apply phase_returning.
    + destruct i as [|i]; [destruct b|].
      * rewrite (step_Settle_get lc st pk cur) by done.
        apply (phase_saving _ _ _ pk cur); cbn; by rewrite ?Ha, ?Hd.
      * rewrite (step_Settle_fail lc st _ Ht) by done.
        by apply phase_failed_early.
      * rewrite step_Settle_absent by (by rewrite Ht). by eapply phase_loading.
    + rewrite step_Settle_absent by (by rewrite Ht). by apply phase_failed_early.
    + destruct i as [|i]; [destruct b|].
      * rewrite (step_Settle_set lc st _ Ht).
        by apply (phase_saved _ _ _ pk cur).
      * rewrite (step_Settle_fail lc st _ Ht) by done.
        by apply (phase_failed_late _ _ _ pk cur).
      * rewrite step_Settle_absent by (by rewrite Ht). by eapply phase_saving.
    + rewrite step_Settle_absent by (by rewrite Ht). by eapply phase_failed_late.
    + destruct i as [|i].
      * rewrite (step_Settle_return lc st b) by done.
        by apply (phase_done _ _ _ pk cur).
      * rewrite step_Settle_absent by (by rewrite Ht). by eapply phase_saved.
    + rewrite step_Settle_absent by (by rewrite Ht). by eapply phase_done.
Qed.

Lemma phase_run lc stored st evs :
  Forall cycleEvent evs → phase lc stored st → phase lc stored (run lc st evs).
Proof.
  intros Hevs. revert st. induction Hevs as [|ev evs Hev _ IH]; intros st Hph; [done|].
  rewrite run_cons. by apply IH, phase_step.
Qed.

(** Between two loads of the page, whatever calls and settled promises
    occur in whatever order, the controller is in one of the phases of
    [phase]: it goes from idle over loading and saving to done, or stops in
    between with the guard set. *)
Lemma controller_phases (lc : string → string → comparison)
    (stored : option (list Package)) (evs : list Event) :
  Forall cycleEvent evs →
  phase lc stored (run lc (startState stored) evs).
Proof. intros Hevs. apply phase_run; [done|]. by apply phase_idle. Qed.

(** X15.  Between two loads of the page the page is annotated by at most
    one comparison: whatever calls and settled promises occur, either nothing
    is annotated and the store is as it was at the start, or the annotations
    and counters are those of one comparison of one parse of the page with
    the packages stored at the start, and the store is either still as it was
    or holds the stripped packages of that parse, the latter exactly when
    [isInitialized] is set. *)
Theorem one_comparison_per_page_view (lc : string → string → comparison)
    (stored : option (list Package)) (evs : list Event) :
  Forall cycleEvent evs →
  let st := run lc (startState stored) evs in
  (annotations st = [] ∧ packageData st = stored ∧ isInitialized st = false) ∨
  ∃ packages currentPackages,
    mapJs (parsePackage lc) packages = Ok currentPackages ∧
    annotations st =
      (analyzePackages (prevPackagesOf stored) packages currentPackages).2 ∧
    counters st =
      (analyzePackages (prevPackagesOf stored) packages currentPackages).1 ∧
    ((isInitialized st = false ∧ packageData st = stored) ∨
     (isInitialized st = true ∧
      packageData st = Some (packagesToStore currentPackages))).
Proof.
  intros Hevs st.
  destruct (controller_phases lc stored evs Hevs)
    as [Hi Hing Ht Ha Hd | Hi Hing Ht Ha Hd
      | pk cur Hp Hi Hing Ht Ha Hd | Hi Hing Ht Ha Hd
      | pk cur Hp Hi Hing Ht Ha Hc Hd | pk cur Hp Hi Hing Ht Ha Hc Hd
      | pk cur Hp Hi Hing Ht Ha Hc Hd | pk cur Hp Hi Hing Ht Ha Hc Hd];
    fold st in Hi, Hing, Ht, Ha, Hd.
  1-4: by left.
  all: right; exists pk, cur; split_and!; try done; (by left) || (by right).
Qed.

Lemma one_comparison_per_page_view_witness :
  let st := run codeCompare (startState None)
              [Trigger [sampleElement]; Trigger [sampleElement];
               Settle 0 true; Trigger []; Settle 0 false] in
  (annotations st = [] ∧ packageData st = None ∧ isInitialized st = false) ∨
  ∃ packages currentPackages,
    mapJs (parsePackage codeCompare) packages = Ok currentPackages ∧
    annotations st =
      (analyzePackages (prevPackagesOf None) packages currentPackages).2 ∧
    counters st =
      (analyzePackages (prevPackagesOf None) packages currentPackages).1 ∧
    ((isInitialized st = false ∧ packageData st = None) ∨
     (isInitialized st = true ∧
      packageData st = Some (packagesToStore currentPackages))).
Proof.
  apply (one_comparison_per_page_view codeCompare None).
  repeat constructor.
Defined.

Lemma settled_step lc st ev :
  cycleEvent ev →
  isInitialized st = true → (tasks st = [] ∨ tasks st = [AwaitReturn]) →
  let st' := step lc st ev in
  isInitialized st' = true ∧ (tasks st' = [] ∨ tasks st' = [AwaitReturn]) ∧
  annotations st' = annotations st ∧ counters st' = counters st ∧
  packageData st' = packageData st.
Proof.
  intros Hev Hi Ht. destruct ev as [pk | i b | | |]; try done; intros st'; unfold st'.
  - rewrite step_Trigger_blocked by auto. by split_and!.
  - destruct Ht as [Ht | Ht].
    + rewrite step_Settle_absent by (by rewrite Ht). split_and!; auto.
    + destruct i as [|i].
      * rewrite (step_Settle_return lc st b) by done. cbn. split_and!; auto.
      * rewrite step_Settle_absent by (by rewrite Ht). split_and!; auto.
Qed.

(** X16.  Once [isInitialized] is set, no call and no settled promise of the
    page view changes the annotations, the counters or the store again, and
    no load or save is started: what remains suspended, if anything, is the
    return of [beginInitialization]. *)
Theorem done_is_terminal (lc : string → string → comparison)
    (stored : option (list Package)) (evs evs' : list Event) :
  Forall cycleEvent evs → Forall cycleEvent evs' →
  let st := run lc (startState stored) evs in
  isInitialized st = true →
  let st' := run lc st evs' in
  isInitialized st' = true ∧
  annotations st' = annotations st ∧ counters st' = counters st ∧
  packageData st' = packageData st ∧
  (tasks st' = [] ∨ tasks st' = [AwaitReturn]).
Proof.
  intros Hevs Hevs' st Hinit.
  assert (Ht : tasks st = [] ∨ tasks st = [AwaitReturn]).
  { destruct (controller_phases lc stored evs Hevs)
      as [Hi Hing Ht Ha Hd | Hi Hing Ht Ha Hd
        | pk cur Hp Hi Hing Ht Ha Hd | Hi Hing Ht Ha Hd
        | pk cur Hp Hi Hing Ht Ha Hc Hd | pk cur Hp Hi Hing Ht Ha Hc Hd
        | pk cur Hp Hi Hing Ht Ha Hc Hd | pk cur Hp Hi Hing Ht Ha Hc Hd];
      fold st in Hi, Ht; try congruence; auto. }
  clearbody st. revert st Hinit Ht.
  induction Hevs' as [|ev evs' Hev _ IH]; intros st Hinit Ht; [by split_and!|].
  cbn zeta. rewrite run_cons.
  destruct (settled_step lc st ev Hev Hinit Ht) as (Hi' & Ht' & <- & <- & <-).
  by apply IH.
Qed.

Lemma done_is_terminal_witness :
  let st := run codeCompare (startState None)
              [Trigger [sampleElement]; Settle 0 true; Settle 0 true] in
  annotations (run codeCompare st [Trigger [sampleElement]; Settle 0 true;
                                   Trigger [sampleElement; sampleElement]])
  = annotations st.
Proof.
  refine (proj1 (proj2 (done_is_terminal codeCompare None
    [Trigger [sampleElement]; Settle 0 true; Settle 0 true]
    [Trigger [sampleElement]; Settle 0 true;
     Trigger [sampleElement; sampleElement]] _ _ _))).
  - repeat constructor.
  - repeat constructor.
  - vm_compute. reflexivity.
Defined.

(** X17.  A page without packages releases the guard: from an idle state a
    call of [beginInitialization] on an empty page sets [isInitializing], and
    when its promise settles the state is what it was before the call, so
    that a later call can try again. *)
Theorem empty_page_releases_guard (lc : string → string → comparison)
    (st : State) (fulfilled : bool) :
  isInitialized st = false → isInitializing st = false → tasks st = [] →
  isInitializing (step lc st (Trigger [])) = true ∧
  step lc (step lc st (Trigger [])) (Settle 0 fulfilled) = st.
Proof.
  intros Hi Hing Ht. rewrite step_Trigger_empty by done. split; [done|].
  rewrite (step_Settle_return lc _ fulfilled) by (cbn; by rewrite Ht).
  destruct st. simpl in *. by subst.
Qed.

Lemma empty_page_releases_guard_witness :
  step codeCompare (step codeCompare (startState None) (Trigger [])) (Settle 0 true)
  = startState None.
Proof.
  apply (proj2 (empty_page_releases_guard codeCompare (startState None) true
                  eq_refl eq_refl eq_refl)).
Defined.

(** ** The store over the whole life of the script *)

Lemma storeOk_step lc stored st ev :
  guarded st → Forall (taskFrom lc) (tasks st) →
  storedFrom lc stored (packageData st) →
  Forall (taskFrom lc) (tasks (step lc st ev)) ∧
  storedFrom lc stored (packageData (step lc st ev)).
Proof.
  intros Hg Htasks Hstore. destruct ev as [pk | i b | | |].
  - destruct (isInitialized st) eqn:Hi;
      [by rewrite step_Trigger_blocked by auto|].
    destruct (isInitializing st) eqn:Hing;
      [by rewrite step_Trigger_blocked by auto|].
    pose proof (guarded_idle st Hg Hing) as Ht.
    destruct pk as [|x pk].
    + rewrite step_Trigger_empty by done. cbn. rewrite Ht. split; [|done].
      by repeat constructor.
    + destruct (mapJs (parsePackage lc) (x :: pk)) as [cur|e] eqn:Hp.
      * rewrite (step_Trigger_idle lc st (x :: pk) cur) by done. cbn. rewrite Ht.
        split; [|done]. by repeat constructor.
      * rewrite (step_Trigger_throw lc st (x :: pk) e) by done. cbn. by rewrite Ht.
  - destruct (tasks st !! i) as [t|] eqn:Hi; [|by rewrite step_Settle_absent].
    destruct (guarded_lookup st i t Hg Hi) as [-> Ht].
    rewrite Ht in Htasks. apply Forall_cons in Htasks as [Hfrom _].
    destruct t as [pk cur | ts |].
    + destruct b.
      * rewrite (step_Settle_get lc st pk cur) by done. cbn. split; [|done].
        constructor; [|done]. by exists pk, cur.
      * rewrite (step_Settle_fail lc st _ Ht) by done. by cbn.
    + destruct b.
      * rewrite (step_Settle_set lc st ts) by done. cbn. split; [by repeat constructor|].
        right; right. destruct Hfrom as (pk & cur & Hp & ->). by exists pk, cur.
      * rewrite (step_Settle_fail lc st _ Ht) by done. by cbn.
    + rewrite (step_Settle_return lc st b) by done. by cbn.
  - by cbn.
  - cbn. split; [done|]. right. by left.
  - by cbn.
Qed.

(** X18.  Over the whole life of the script, with resets and reloads, the
    store holds the packages it held at the start, or nothing, or the
    stripped packages of one parsed page; a failed or unfinished cycle never
    leaves anything else in it. *)
Theorem store_integrity (lc : string → string → comparison)
    (stored : option (list Package)) (evs : list Event) :
  storedFrom lc stored (packageData (run lc (startState stored) evs)).
Proof.
  assert (H : ∀ st, guarded st → Forall (taskFrom lc) (tasks st) →
            storedFrom lc stored (packageData st) →
            storedFrom lc stored (packageData (run lc st evs))).
  { induction evs as [|ev evs IH]; intros st Hg Ht Hs; [done|].
    rewrite run_cons. destruct (storeOk_step lc stored st ev Hg Ht Hs).
    apply IH; [by apply guarded_step | done | done]. }
  apply H; [apply guarded_startState | constructor | by left].
Qed.

(** ** The earliest revision *)

Lemma legacy_prevPackageMap_snoc (prev : list Legacy.Package) (p : Legacy.Package) :
  LegacyDiff.prevPackageMap (prev ++ [p]) =
  <[Legacy.getPackageKeyWithoutPrice p :=
      {| LegacyDiff.fullKey := LegacyDiff.getFullPackageKey p;
         LegacyDiff.pkg := p |}]> (LegacyDiff.prevPackageMap prev).
Proof. unfold LegacyDiff.prevPackageMap. by rewrite foldl_app. Qed.

Lemma legacy_prevPackageMap_lookup (prev : list Legacy.Package) (k : string)
    (pd : LegacyDiff.PrevData) :
  LegacyDiff.prevPackageMap prev !! k = Some pd →
  LegacyDiff.pkg pd ∈ prev ∧
  Legacy.getPackageKeyWithoutPrice (LegacyDiff.pkg pd) = k.
Proof.
  induction prev as [|p prev IH] using rev_ind.
  - unfold LegacyDiff.prevPackageMap. simpl. by rewrite lookup_empty.
  - rewrite legacy_prevPackageMap_snoc, lookup_insert. case_decide as Hk.
    + intros [= <-]. simpl. split; [|done].
      apply elem_of_app. right. by apply list_elem_of_singleton.
    + intros H. destruct (IH H). split; [|done]. apply elem_of_app. by left.
Qed.

Lemma legacy_key_inj (a b : Legacy.Package) :
  hasChar "-" (Legacy.username a) = false → hasChar "-" (Legacy.username b) = false →
  hasChar "-" (Legacy.efficiency a) = false → hasChar "-" (Legacy.efficiency b) = false →
  Legacy.getPackageKeyWithoutPrice a = Legacy.getPackageKeyWithoutPrice b →
  Legacy.username a = Legacy.username b ∧ Legacy.efficiency a = Legacy.efficiency b.
Proof.
  intros Hua Hub Hea Heb. unfold Legacy.getPackageKeyWithoutPrice. cbn zeta.
  rewrite !append_cons, !append_nil. intros E.
  destruct (split_first _ _ _ _ _ Hua Hub E) as [Eu E1].
  by destruct (split_first _ _ _ _ _ Hea Heb E1) as [Ee _].
Qed.

(** X21.  In the earliest revision the key a package is looked up by holds
    the efficiency text.  So, for seller names and efficiency texts without
    [-], the class [package-offer-changed] is never given, and a listing
    whose efficiency text differs from that of every stored package of its
    seller is given [package-new]. *)
Theorem legacy_offer_change_is_new (prev : list Legacy.Package)
    (c : Legacy.Package) :
  hasChar "-" (Legacy.username c) = false →
  hasChar "-" (Legacy.efficiency c) = false →
  (∀ p, p ∈ prev → hasChar "-" (Legacy.username p) = false ∧
                   hasChar "-" (Legacy.efficiency p) = false) →
  LegacyDiff.analyzePackage (LegacyDiff.prevPackageMap prev) c
    ≠ Some "package-offer-changed" ∧
  ((∀ p, p ∈ prev → Legacy.username p = Legacy.username c →
                    Legacy.efficiency p ≠ Legacy.efficiency c) →
   LegacyDiff.analyzePackage (LegacyDiff.prevPackageMap prev) c
     = Some "package-new").
Proof.
  intros Hu He Hprev. unfold LegacyDiff.analyzePackage.
  destruct (LegacyDiff.prevPackageMap prev !! Legacy.getPackageKeyWithoutPrice c)
    as [pd|] eqn:Hlook; [|done].
  destruct (legacy_prevPackageMap_lookup _ _ _ Hlook) as [Hin Hk].
  destruct (Hprev _ Hin) as [Hup Hep].
  destruct (legacy_key_inj _ _ Hup Hu Hep He Hk) as [Eu Ee].
  split.
  - case_decide; [|done]. by rewrite decide_False by (intros H'; by apply H').
  - intros Hdiff. by destruct (Hdiff _ Hin Eu).
Qed.

Lemma legacy_offer_change_is_new_witness :
  LegacyDiff.analyzePackage
    (LegacyDiff.prevPackageMap
       [{| Legacy.username := "alice"; Legacy.total := "$10";
           Legacy.efficiency := "70% of $100"; Legacy.cards := cards samplePrev |}])
    {| Legacy.username := "alice"; Legacy.total := "$10";
       Legacy.efficiency := "85% of $100"; Legacy.cards := cards samplePrev |}
  = Some "package-new".
Proof.
  apply (legacy_offer_change_is_new
    [{| Legacy.username := "alice"; Legacy.total := "$10";
        Legacy.efficiency := "70% of $100"; Legacy.cards := cards samplePrev |}]
    {| Legacy.username := "alice"; Legacy.total := "$10";
       Legacy.efficiency := "85% of $100"; Legacy.cards := cards samplePrev |}).
  - reflexivity.
  - reflexivity.
  - intros p Hp%list_elem_of_singleton. by subst p.
  - intros p Hp%list_elem_of_singleton _. subst p. vm_compute. discriminate.
Defined.

(** X22.  In the earliest revision nothing is set before the save has
    completed: every call of [initializeState] on a page whose packages parse
    starts a load of its own, so [n] calls before the first save leave [n]
    cycles in flight. *)
Theorem legacy_every_call_loads (lc : string → string → comparison)
    (stored : option (list Legacy.Package))
    (calls : list (list PackageElement)) (parsed : list (list Legacy.Package)) :
  Forall2 (λ packages currentPackages,
             packages ≠ [] ∧
             mapJs (LegacyDiff.parsePackage lc) packages = Ok currentPackages)
          calls parsed →
  let st := foldl (LegacyDiff.trigger lc)
              {| Legacy.isInitialized := false; Legacy.packageData := stored;
                 Legacy.tasks := [] |} calls in
  Legacy.isInitialized st = false ∧
  Legacy.tasks st = Legacy.AwaitGet <$> parsed ∧
  length (Legacy.tasks st) = length calls.
Proof.
  intros Hcalls.
  assert (H : ∀ st, Legacy.isInitialized st = false →
    Legacy.isInitialized (foldl (LegacyDiff.trigger lc) st calls) = false ∧
    Legacy.tasks (foldl (LegacyDiff.trigger lc) st calls) =
      Legacy.tasks st ++ (Legacy.AwaitGet <$> parsed)).
  { induction Hcalls as [|pk cur calls parsed [Hne Hp] _ IH]; intros st Hi.
    - simpl. by rewrite app_nil_r.
    - cbn [foldl].
      assert (E : LegacyDiff.trigger lc st pk =
        {| Legacy.isInitialized := Legacy.isInitialized st;
           Legacy.packageData := Legacy.packageData st;
           Legacy.tasks := Legacy.tasks st ++ [Legacy.AwaitGet cur] |}).
      { unfold LegacyDiff.trigger. rewrite Hi.
        destruct pk as [|x pk]; [done|]. by rewrite Hp. }
      rewrite E.
      destruct (IH {| Legacy.isInitialized := Legacy.isInitialized st;
                      Legacy.packageData := Legacy.packageData st;
                      Legacy.tasks := Legacy.tasks st ++ [Legacy.AwaitGet cur] |} Hi)
        as [-> ->].
      split; [done|]. simpl. by rewrite <- app_assoc. }
  intros st.
  destruct (H {| Legacy.isInitialized := false; Legacy.packageData := stored;
                 Legacy.tasks := [] |} eq_refl) as [Hi Ht].
  fold st in Hi, Ht.
  split_and!; [done | done |].
  rewrite Ht. simpl. rewrite length_fmap. symmetry. by eapply Forall2_length.
Qed.

Lemma legacy_every_call_loads_witness :
  length (Legacy.tasks
    (foldl (LegacyDiff.trigger codeCompare)
       {| Legacy.isInitialized := false; Legacy.packageData := None;
          Legacy.tasks := [] |}
       [[sampleElement]; [sampleElement]; [sampleElement]])) = 3.
Proof.
  refine (proj2 (proj2 (legacy_every_call_loads codeCompare None
    [[sampleElement]; [sampleElement]; [sampleElement]] _ _))).
  repeat (constructor; [split; [discriminate | reflexivity]|]). constructor.
Defined.

(** ** Parsing an annotated card again *)

Lemma hasChar_occurrence (c a : ascii) (pre post : string) :
  hasChar c (pre +:+ String a (String c post)) = true.
Proof.
  rewrite hasChar_app. apply orb_true_iff. right. simpl.
  destruct (decide (a = c)); [done|]. by rewrite decide_True.
Qed.

Lemma occurrence_before (c a : ascii) (t suffix pre post : string) :
  hasChar c suffix = false →
  t +:+ suffix = pre +:+ String a (String c post) →
  ∃ post', t = pre +:+ String a (String c post').
Proof.
  intros Hs. revert t. induction pre as [|y pre IH]; intros t E.
  - rewrite append_nil in E. destruct t as [|x t].
    + rewrite append_nil in E. exfalso.
      rewrite E, <- (append_nil (String a _)), hasChar_occurrence in Hs. done.
    + rewrite append_cons in E. injection E as -> E. destruct t as [|x' t].
      * rewrite append_nil in E. exfalso. rewrite E in Hs. simpl in Hs.
        by rewrite decide_True in Hs.
      * rewrite append_cons in E. injection E as -> E. by exists t.
  - rewrite append_cons in E. destruct t as [|x t].
    + rewrite append_nil in E. exfalso.
      rewrite E, <- append_cons, hasChar_occurrence in Hs. done.
    + rewrite append_cons in E. injection E as -> E.
      destruct (IH t E) as [post' ->]. by exists post'.
Qed.

Lemma matchDigitsThen_suffix (c : ascii) (t suffix : string) :
  isDigit c = false → hasChar c suffix = false →
  matchDigitsThen c (t +:+ suffix) = matchDigitsThen c t.
Proof.
  intros Hc Hs. destruct (matchDigitsThen c t) as [d|] eqn:Hm.
  - by apply matchDigitsThen_app.
  - apply matchDigitsThen_None_iff; [done|]. intros pre a post Ha E.
    destruct (occurrence_before c a t suffix pre post Hs E) as [post' ->].
    by apply (matchDigitsThen_occurrence c a pre post' Hc Ha).
Qed.

(** X20.  Showing an old price at a card does not change what
    [parsePackage] reads from the card afterwards: name, condition and price
    are the same, and so is the quantity when the text of the card had a
    quantity, or when the two added texts contain no [x]. *)
Theorem reparse_annotated_card (li : LiElement) (oldPrice oldEfficiencyText : string) :
  matchDigitsThen "x" (li_textContent li) ≠ None ∨
    (hasChar "x" oldPrice = false ∧ hasChar "x" oldEfficiencyText = false) →
  stripCard (parseCard (displayOldPriceInfo li oldPrice oldEfficiencyText)) =
  stripCard (parseCard li).
Proof.
  intros H. unfold parseCard, stripCard, displayOldPriceInfo. simpl. f_equal.
  assert (E : matchDigitsThen "x"
                (li_textContent li +:+ oldPrice +:+ " " +:+ oldEfficiencyText) =
              matchDigitsThen "x" (li_textContent li)); [|by rewrite E].
  destruct H as [H | [Hp He]].
  - destruct (matchDigitsThen "x" (li_textContent li)) as [d|] eqn:Hm; [|done].
    by apply matchDigitsThen_app.
  - apply matchDigitsThen_suffix; [done|].
    rewrite hasChar_app, Hp. simpl. by rewrite hasChar_app, He.
Qed.

Lemma reparse_annotated_card_witness :
  stripCard (parseCard (displayOldPriceInfo sampleLi "$9" EmptyString)) =
  stripCard (parseCard sampleLi).
Proof.
  apply (reparse_annotated_card sampleLi "$9" EmptyString).
  left. vm_compute. discriminate.
Defined.

(** ** A listing without a heading on the page *)

Lemma mapJs_parsePackage_Throw lc (packages : list PackageElement) :
  (∃ e, e ∈ packages ∧ pe_heading e = None) →
  mapJs (parsePackage lc) packages = Throw TypeError.
Proof.
  intros (e & Hin & He). induction packages as [|x packages IH].
  - by apply elem_of_nil in Hin.
  - simpl. unfold parsePackage at 1.
    destruct (pe_heading x) as [h|] eqn:Hx; [|done].
    apply elem_of_cons in Hin as [-> | Hin]; [congruence|].
    by rewrite (IH Hin).
Qed.

Lemma mapJs_parsePackage_Ok lc (packages : list PackageElement) :
  (∀ e, e ∈ packages → pe_heading e ≠ None) →
  ∃ currentPackages, mapJs (parsePackage lc) packages = Ok currentPackages.
Proof.
  induction packages as [|x packages IH]; intros H; [by eexists|].
  simpl. unfold parsePackage at 1.
  destruct (pe_heading x) as [h|] eqn:Hx.
  - destruct IH as [cur ->]; [|by eexists].
    intros e He. apply H, elem_of_cons. by right.
  - destruct (H x); [apply elem_of_cons; by left | done].
Qed.

(** X19.  The page parses exactly when every listing has a heading region.
    One listing without it makes the whole call fail before anything is
    loaded or annotated: the rejection is unhandled, [isInitializing] stays
    set, and every later call of [beginInitialization] changes nothing, also
    for the listings that are well formed. *)
Theorem headless_listing_blocks (lc : string → string → comparison)
    (st : State) (packages : list PackageElement) :
  ((∀ e, e ∈ packages → pe_heading e ≠ None) ↔
   ∃ currentPackages, mapJs (parsePackage lc) packages = Ok currentPackages) ∧
  (isInitialized st = false → isInitializing st = false →
   (∃ e, e ∈ packages ∧ pe_heading e = None) →
   let st' := step lc st (Trigger packages) in
   uncaught st' = S (uncaught st) ∧ isInitializing st' = true ∧
   tasks st' = tasks st ∧ annotations st' = annotations st ∧
   packageData st' = packageData st ∧
   ∀ triggers : list (list PackageElement),
     run lc st' (Trigger <$> triggers) = st').
Proof.
  split.
  - split; [apply mapJs_parsePackage_Ok|].
    intros [cur Hcur] e Hin He.
    rewrite (mapJs_parsePackage_Throw lc packages) in Hcur; [done | by exists e].
  - intros Hi Hing Hbad st'. unfold st'.
    rewrite (step_Trigger_throw lc st packages TypeError)
      by (try done; by apply mapJs_parsePackage_Throw).
    cbn. split_and!; try done. intros triggers. by apply run_triggers_blocked.
Qed.

Lemma headless_listing_blocks_witness :
  isInitializing (step codeCompare (startState None)
                    (Trigger [sampleElement; noHeading])) = true.
Proof.
  refine (proj1 (proj2 (proj2 (headless_listing_blocks codeCompare
    (startState None) [sampleElement; noHeading]) eq_refl eq_refl _))).
  exists noHeading. split; [|reflexivity].
  apply elem_of_cons. right. by apply elem_of_cons; left.
Defined.

(** ** The effects of the loop, package by package *)

Lemma analyzePackage_effects_counters prevMap ctr ctr' el c :
  (analyzePackage prevMap ctr el c).2 = (analyzePackage prevMap ctr' el c).2.
Proof.
  unfold analyzePackage. destruct (prevMap !! getBasePackageKey c); [|done].
  by repeat case_decide.
Qed.

Lemma analyzeFold_effects prevMap acc (l : list (PackageElement * Package)) :
  (analyzeFold prevMap acc l).2 =
  acc.2 ++ concat ((λ x, (analyzePackage prevMap zeroCounters x.1 x.2).2) <$> l).
Proof.
  revert acc. induction l as [|[el c] l IH]; intros acc.
  - simpl. by rewrite app_nil_r.
  - rewrite analyzeFold_cons, IH. cbn [fst snd fmap list_fmap concat].
    rewrite <- app_assoc. do 2 f_equal. apply analyzePackage_effects_counters.
Qed.

(** X11.  The effects of the loop are, in the order of the page, the effects
    of each package taken alone: what is done to a package depends on the
    stored packages and on that package only, not on its position, on the
    other packages of the page or on the counters. *)
Theorem effects_in_page_order (prev : list Package)
    (packages : list PackageElement) (currentPackages : list Package) :
  (analyzePackages prev packages currentPackages).2 =
  concat ((λ x, (analyzePackage (prevBasePackageMap prev) zeroCounters x.1 x.2).2)
            <$> zip packages currentPackages) ∧
  ∀ ctr el c,
    (analyzePackages prev [el] [c]).2 =
    (analyzePackage (prevBasePackageMap prev) ctr el c).2.
Proof.
  split.
  - by rewrite analyzePackages_fold, analyzeFold_effects.
  - intros ctr el c. rewrite analyzePackages_fold, analyzeFold_effects. simpl.
    rewrite app_nil_r. apply analyzePackage_effects_counters.
Qed.
